(** * The plugin manager of remix-ide: message routing, registry and focus

    A shallow embedding of [src/app/plugin/pluginManager.js] and the
    properties of its message protocol.

    - [JS]: the JavaScript values the manager handles, with the language
      operations the source relies on (truthiness, [ToString] with the
      printing of doubles, property reads, the order of properties).
    - [JSON]: [JSON.parse] and [JSON.stringify] on those values.
    - [PluginManager]: the class itself, method by method, as computations
      over the manager's fields that record every [postMessage] and every
      call of a member of the plugin API.
    - [Envelope], [Registry], [Routing], [History]: the messages of the
      protocol, sequences of registry calls, what a message makes the
      manager send, and histories of the manager.
    - The theorems about the registry, the inbound dispatch, the focus
      handler and the broadcast. *)

From Stdlib Require Import ZArith Ascii String DecimalString.
From stdpp Require Import gmap strings list fin_maps.

Local Open Scope string_scope.

(** ** JavaScript values *)

Set Warnings "-register-all".

Module JS.

(** A number is a double, kept as the decimal [mantissa * 10 ^ exponent]
    that it is exactly (every double is one), with no zero at the end of
    the mantissa; [-0] is kept as [0], which it prints and tests as. The
    infinities and [NaN], which no JSON text is read as, can come as the
    data of an event or from an endpoint. *)
Inductive value : Type :=
| Undefined
| Null
| Bool (b : bool)
| Number (mantissa exponent : Z)
| Str (s : string)
| Array (elements : list value)
| Object (properties : list (string * value))
| Infinity (negative : bool)
| NaN.

(** [ToBoolean]: what [if (x)] and [!x] test. *)
Definition truthy (v : value) : bool :=
  match v with
  | Undefined | Null => false
  | Bool b => b
  | Number m _ => negb (m =? 0)%Z
  | Str s => negb (String.eqb s "")
  | Array _ | Object _ | Infinity _ => true
  | NaN => false
  end.

(** Truthiness of a string, as in [if (!extension) return]. *)
Definition truthy_string (s : string) : bool := negb (String.eqb s "").

(** The names that an object literal inherits from [Object.prototype]:
    [obj[name]] is truthy for them also when [obj] has no such property
    of its own. *)
Definition inherited (name : string) : bool :=
  bool_decide
    (name ∈ ["constructor"; "toString"; "toLocaleString"; "valueOf";
             "hasOwnProperty"; "isPrototypeOf"; "propertyIsEnumerable";
             "__proto__"; "__defineGetter__"; "__defineSetter__";
             "__lookupGetter__"; "__lookupSetter__"]).

(** *** Doubles *)

Local Open Scope Z_scope.

Definition digits_of_N (n : N) : string :=
  NilZero.string_of_uint (N.to_uint n).

(** The number of decimal digits of a positive integer. *)
Definition digits (n : Z) : Z :=
  Z.of_nat (String.length (digits_of_N (Z.to_N n))).

Fixpoint strip_zeros (fuel : nat) (m e : Z) : Z * Z :=
  match fuel with
  | O => (m, e)
  | S fuel =>
      if (m mod 10 =? 0) && negb (m =? 0) then strip_zeros fuel (m / 10) (e + 1)
      else (m, e)
  end.

(** The decimal [m * 10 ^ e] with no zero at the end of its mantissa. *)
Definition normal (m e : Z) : Z * Z :=
  if m =? 0 then (0, 0)
  else strip_zeros (S (Z.to_nat (Z.log2 (Z.abs m)))) m e.

(** Whether [2 ^ k <= p / q]. *)
Definition above_power (p q k : Z) : bool :=
  if 0 <=? k then q * 2 ^ k <=? p else q <=? p * 2 ^ (- k).

(** The double nearest to the positive rational [p / q], ties to the even
    significand, as its significand and binary exponent; [None] when the
    rounding overflows. The exponent is that of a 53-bit significand, or
    the least one, -1074, for a subnormal. *)
Definition nearest (p q : Z) : option (Z * Z) :=
  let l := Z.log2 p - Z.log2 q in
  let l := if above_power p q l then l else l - 1 in
  let b := Z.max (l - 52) (- 1074) in
  let num := if 0 <=? b then p else p * 2 ^ (- b) in
  let den := if 0 <=? b then q * 2 ^ b else q in
  let sig := num / den in
  let rest := num mod den in
  let sig :=
    if den <? 2 * rest then sig + 1
    else if (den =? 2 * rest) && Z.odd sig then sig + 1
    else sig in
  let '(sig, b) := if sig =? 2 ^ 53 then (2 ^ 52, b + 1) else (sig, b) in
  if 971 <? b then None else Some (sig, b).

(** The value of the positive decimal [m * 10 ^ e] as a double: [None]
    when it overflows to infinity. A decimal whose size alone decides is
    not expanded. *)
Definition to_double (m e : Z) : option (Z * Z) :=
  let n := digits m + e in
  if 400 <? n then None
  else if n <? - 400 then Some (0, 0)
  else
    match
      (if 0 <=? e then nearest (m * 10 ^ e) 1 else nearest m (10 ^ (- e)))
    with
    | None => None
    | Some (sig, b) =>
        Some (if 0 <=? b then normal (sig * 2 ^ b) 0
              else normal (sig * 5 ^ (- b)) b)
    end.

(** The number that the literal of sign [neg], mantissa [m] and exponent
    [e] denotes. *)
Definition number (neg : bool) (m e : Z) : value :=
  if m =? 0 then Number 0 0
  else
    match to_double m e with
    | Some (m', e') => Number (if neg then - m' else m') e'
    | None => Infinity neg
    end.

(** *** [Number::toString] *)

Fixpoint zeros (n : nat) : string :=
  match n with
  | O => ""
  | S k => String "0" (zeros k)
  end.

(** The shortest decimal that rounds to the double [(m, e)], of [d] digits:
    with [k] digits and then with more, the one of the two nearest that is
    closer first. *)
Fixpoint shortest (fuel : nat) (k m e d : Z) : Z * Z :=
  match fuel with
  | O => (m, e)
  | S fuel =>
      if d <=? k then (m, e)
      else
        let scale := 10 ^ (d - k) in
        let low := m / scale in
        let rest := m mod scale in
        let rounds c := bool_decide (to_double c (e + d - k) = Some (m, e)) in
        let '(first, second) :=
          if 2 * rest <? scale then (low, low + 1)
          else if scale <? 2 * rest then (low + 1, low)
          else if Z.even low then (low, low + 1) else (low + 1, low) in
        if rounds first then normal first (e + d - k)
        else if rounds second then normal second (e + d - k)
        else shortest fuel (k + 1) m e d
  end.

Definition digits_of (n : Z) : string := digits_of_N (Z.to_N n).

(** The text of a positive double [(m, e)]: its shortest digits, laid out
    by where the decimal point falls. *)
Definition positive_to_string (m e : Z) : string :=
  let '(s, e') := shortest 17 1 m e (digits m) in
  let ds := digits_of s in
  let k := digits s in
  let n := k + e' in
  if (k <=? n) && (n <=? 21) then ds +:+ zeros (Z.to_nat (n - k))
  else if (0 <? n) && (n <=? 21) then
    substring 0 (Z.to_nat n) ds +:+ "."
    +:+ substring (Z.to_nat n) (Z.to_nat (k - n)) ds
  else if (- 6 <? n) && (n <=? 0) then "0." +:+ zeros (Z.to_nat (- n)) +:+ ds
  else
    (if k =? 1 then ds
     else substring 0 1 ds +:+ "." +:+ substring 1 (Z.to_nat (k - 1)) ds)
    +:+ "e" +:+ (if 0 <=? n - 1 then "+" else "-")
    +:+ digits_of (Z.abs (n - 1)).

(** [Number::toString] of the double that [m * 10 ^ e] is or rounds to. *)
Definition number_to_string (m e : Z) : string :=
  if m =? 0 then "0"
  else
    match to_double (Z.abs m) e with
    | Some (m', e') =>
        (if m <? 0 then "-" else "") +:+ positive_to_string m' e'
    | None => if m <? 0 then "-Infinity" else "Infinity"
    end.

Local Close Scope Z_scope.

Fixpoint join (sep : string) (l : list string) : string :=
  match l with
  | [] => ""
  | [s] => s
  | s :: rest => s ++ sep ++ join sep rest
  end.

(** Own property of an object literal or of a parsed object. *)
Fixpoint assoc (k : string) (l : list (string * value)) : option value :=
  match l with
  | [] => None
  | (k', v) :: r => if String.eqb k k' then Some v else assoc k r
  end.

(** [ToString], used by template literals, by property keys and by
    [JSON.parse] on its argument; [None] is the TypeError of a value that
    has no primitive. An array joins its elements with commas, [null] and
    [undefined] elements printing as nothing. An object prints through the
    [toString] it inherits; one with a [toString] member of its own, which
    in a parsed value is no function, has no primitive. *)
Fixpoint to_string (v : value) : option string :=
  match v with
  | Undefined => Some "undefined"
  | Null => Some "null"
  | Bool true => Some "true"
  | Bool false => Some "false"
  | Number m e => Some (number_to_string m e)
  | Infinity neg => Some (if neg then "-Infinity" else "Infinity")
  | NaN => Some "NaN"
  | Str s => Some s
  | Array l =>
      join "," <$>
        ((fix elts (l : list value) : option (list string) :=
            match l with
            | [] => Some []
            | x :: r =>
                match
                  match x with
                  | Undefined | Null => Some ""
                  | _ => to_string x
                  end, elts r
                with
                | Some s, Some ss => Some (s :: ss)
                | _, _ => None
                end
            end) l)
  | Object l =>
      match assoc "toString" l with
      | Some _ => None
      | None => Some "[object Object]"
      end
  end.

(** Whether a property name is an array index, and which: such names come
    first, in ascending order, when the properties of an object are
    listed. *)
Definition index_of (k : string) : option N :=
  let cs := list_ascii_of_string k in
  if forallb (λ c, (48 <=? nat_of_ascii c)%nat && (nat_of_ascii c <=? 57)%nat)
       cs
     && negb (String.eqb k "")
     && (String.eqb k "0" || negb (String.prefix "0" k))
  then
    let n := fold_left (λ acc c, acc * 10 + N.of_nat (nat_of_ascii c - 48))%N
               cs 0%N in
    if (n <? 4294967295)%N then Some n else None
  else None.

(** An existing property keeps its place when it is written again. *)
Fixpoint replace (k : string) (v : value) (l : list (string * value))
  : list (string * value) :=
  match l with
  | [] => []
  | (k', v') :: r =>
      if String.eqb k k' then (k, v) :: r else (k', v') :: replace k v r
  end.

(** A new property goes before the first property that is no index or a
    greater one when its name is an index, and last otherwise. *)
Fixpoint insert (k : string) (v : value) (l : list (string * value))
  : list (string * value) :=
  match l with
  | [] => [(k, v)]
  | (k', v') :: r =>
      if match index_of k, index_of k' with
         | Some i, Some i' => (i <? i')%N
         | Some _, None => true
         | None, _ => false
         end
      then (k, v) :: l
      else (k', v') :: insert k v r
  end.

(** [obj[k] = v] on the property list. *)
Definition assign (k : string) (v : value) (l : list (string * value))
  : list (string * value) :=
  match assoc k l with
  | Some _ => replace k v l
  | None => insert k v l
  end.

(** The read [data.name] on a value that came out of [JSON.parse], for a
    name that [Object.prototype] and the prototypes of the primitives do
    not have: [None] is the TypeError of reading a property of [null] or
    [undefined]; a property that is not there reads [undefined]. *)
Definition get (v : value) (name : string) : option value :=
  match v with
  | Undefined | Null => None
  | Object l => Some (default Undefined (assoc name l))
  | _ => Some Undefined
  end.

End JS.

(** ** JSON text *)

Module JSON.
Import JS.

Local Open Scope char_scope.

Definition is_ws (c : ascii) : bool :=
  Ascii.eqb c " " || Ascii.eqb c "009" || Ascii.eqb c "010"
  || Ascii.eqb c "013".

Fixpoint skip_ws (cs : list ascii) : list ascii :=
  match cs with
  | c :: r => if is_ws c then skip_ws r else cs
  | [] => []
  end.

(** What is left of [cs] after the literal [lit]. *)
Fixpoint strip (lit cs : list ascii) : option (list ascii) :=
  match lit, cs with
  | [], _ => Some cs
  | a :: lit', c :: r => if Ascii.eqb a c then strip lit' r else None
  | _ :: _, [] => None
  end.

Definition digit (c : ascii) : option Z :=
  let n := Z.of_nat (nat_of_ascii c) in
  if ((48 <=? n) && (n <=? 57))%Z then Some (n - 48)%Z else None.

Definition hex_digit (c : ascii) : option Z :=
  let n := Z.of_nat (nat_of_ascii c) in
  if ((48 <=? n) && (n <=? 57))%Z then Some (n - 48)%Z
  else if ((65 <=? n) && (n <=? 70))%Z then Some (n - 55)%Z
  else if ((97 <=? n) && (n <=? 102))%Z then Some (n - 87)%Z
  else None.

Definition byte (n : Z) : ascii := ascii_of_nat (Z.to_nat n).

(** The bytes of a [\uXXXX] code unit in the UTF-8 text the model keeps
    strings in. *)
Definition utf8 (u : Z) (rest : string) : string :=
  if (u <? 128)%Z then String (byte u) rest
  else if (u <? 2048)%Z then
    String (byte (192 + u / 64)) (String (byte (128 + u mod 64)) rest)
  else
    String (byte (224 + u / 4096))
      (String (byte (128 + (u / 64) mod 64))
         (String (byte (128 + u mod 64)) rest)).

(** The character a one-letter escape stands for. *)
Definition unescape (e : ascii) : option ascii :=
  if Ascii.eqb e "034" then Some "034"
  else if Ascii.eqb e "\" then Some "\"
  else if Ascii.eqb e "/" then Some "/"
  else if Ascii.eqb e "b" then Some "008"
  else if Ascii.eqb e "f" then Some "012"
  else if Ascii.eqb e "n" then Some "010"
  else if Ascii.eqb e "r" then Some "013"
  else if Ascii.eqb e "t" then Some "009"
  else None.

(** The characters of a string literal after its opening quote, up to and
    with the closing quote. *)
Fixpoint parse_chars (cs : list ascii) : option (string * list ascii) :=
  match cs with
  | [] => None
  | c :: r =>
      if Ascii.eqb c "034" then Some (EmptyString, r)
      else if Ascii.eqb c "\" then
        match r with
        | [] => None
        | e :: r1 =>
            if Ascii.eqb e "u" then
              match r1 with
              | a :: b :: c' :: d :: r2 =>
                  match hex_digit a, hex_digit b, hex_digit c', hex_digit d,
                        parse_chars r2 with
                  | Some a, Some b, Some c', Some d, Some (s, r') =>
                      Some (utf8 (((a * 16 + b) * 16 + c') * 16 + d) s, r')
                  | _, _, _, _, _ => None
                  end
              | _ => None
              end
            else
              match unescape e, parse_chars r1 with
              | Some x, Some (s, r') => Some (String x s, r')
              | _, _ => None
              end
        end
      else if (nat_of_ascii c <? 32)%nat then None
      else
        match parse_chars r with
        | Some (s, r') => Some (String c s, r')
        | None => None
        end
  end.

Fixpoint take_digits (cs : list ascii) : list Z * list ascii :=
  match cs with
  | c :: r =>
      match digit c with
      | Some d => let '(ds, r') := take_digits r in (d :: ds, r')
      | None => ([], cs)
      end
  | [] => ([], [])
  end.

Definition digits_value (ds : list Z) : Z :=
  fold_left (fun acc d => acc * 10 + d)%Z ds 0%Z.

(** An optional sign: whether it is [-], and the rest. *)
Definition take_sign (plus : bool) (cs : list ascii) : bool * list ascii :=
  match cs with
  | c :: r =>
      if Ascii.eqb c "-" then (true, r)
      else if plus && Ascii.eqb c "+" then (false, r)
      else (false, cs)
  | [] => (false, cs)
  end.

(** The digits after a decimal point, when there is one. *)
Definition take_fraction (cs : list ascii) : option (list Z * list ascii) :=
  match cs with
  | c :: r =>
      if Ascii.eqb c "." then
        match take_digits r with
        | ([], _) => None
        | (frac, r') => Some (frac, r')
        end
      else Some ([], cs)
  | [] => Some ([], cs)
  end.

(** The exponent after [e] or [E], when there is one. *)
Definition take_exponent (cs : list ascii) : option (Z * list ascii) :=
  match cs with
  | c :: r =>
      if Ascii.eqb c "e" || Ascii.eqb c "E" then
        let '(neg, r1) := take_sign true r in
        match take_digits r1 with
        | ([], _) => None
        | (ex, r2) =>
            let x := digits_value ex in
            Some (if neg then (- x)%Z else x, r2)
        end
      else Some (0%Z, cs)
  | [] => Some (0%Z, cs)
  end.

(** [-? int frac? exp?] of the JSON grammar; the integer part has no
    leading zero. The number is the double nearest to the literal. *)
Definition parse_number (cs : list ascii) : option (value * list ascii) :=
  let '(neg, r0) := take_sign false cs in
  let '(int, r1) := take_digits r0 in
  match int with
  | [] => None
  | 0%Z :: _ :: _ => None
  | _ =>
      match take_fraction r1 with
      | None => None
      | Some (frac, r2) =>
          match take_exponent r2 with
          | None => None
          | Some (x, r3) =>
              Some (number neg (digits_value (int ++ frac))
                      (x - Z.of_nat (length frac))%Z, r3)
          end
      end
  end.

Section Composite.

(** The parser of one value, as [parse_value] passes itself down with less
    fuel. *)
Variable parse_one : list ascii -> option (value * list ascii).

(** The elements of an array after the first, [n] bounding their number. *)
Fixpoint parse_elements (n : nat) (acc : list value) (cs : list ascii)
  : option (value * list ascii) :=
  match n with
  | O => None
  | S n =>
      match skip_ws cs with
      | c :: r =>
          if Ascii.eqb c "]" then Some (Array (rev acc), r)
          else if Ascii.eqb c "," then
            match parse_one r with
            | Some (v, r') => parse_elements n (v :: acc) r'
            | None => None
            end
          else None
      | [] => None
      end
  end.

(** One member, a key in quotes, a colon and a value. *)
Definition parse_member (cs : list ascii)
  : option (string * value * list ascii) :=
  match skip_ws cs with
  | c :: r =>
      if Ascii.eqb c "034" then
        match parse_chars r with
        | Some (k, r1) =>
            match skip_ws r1 with
            | c' :: r2 =>
                if Ascii.eqb c' ":" then
                  match parse_one r2 with
                  | Some (v, r3) => Some (k, v, r3)
                  | None => None
                  end
                else None
            | [] => None
            end
        | None => None
        end
      else None
  | [] => None
  end.

(** The members of an object after the first; a repeated key keeps the
    last value. *)
Fixpoint parse_members (n : nat) (acc : list (string * value))
  (cs : list ascii) : option (value * list ascii) :=
  match n with
  | O => None
  | S n =>
      match skip_ws cs with
      | c :: r =>
          if Ascii.eqb c "}" then Some (Object acc, r)
          else if Ascii.eqb c "," then
            match parse_member r with
            | Some (k, v, r') => parse_members n (assign k v acc) r'
            | None => None
            end
          else None
      | [] => None
      end
  end.

End Composite.

Definition closes (close : ascii) (cs : list ascii) : option (list ascii) :=
  match skip_ws cs with
  | c :: r => if Ascii.eqb c close then Some r else None
  | [] => None
  end.

(** A JSON value with the white space before it; [fuel] bounds the
    nesting. *)
Fixpoint parse_value (fuel : nat) (cs : list ascii)
  : option (value * list ascii) :=
  match fuel with
  | O => None
  | S fuel =>
      match skip_ws cs with
      | [] => None
      | c :: r =>
          if Ascii.eqb c "034" then
            match parse_chars r with
            | Some (s, r') => Some (Str s, r')
            | None => None
            end
          else if Ascii.eqb c "[" then
            match closes "]" r with
            | Some r' => Some (Array [], r')
            | None =>
                match parse_value fuel r with
                | Some (v, r') =>
                    parse_elements (parse_value fuel) (S (length r')) [v] r'
                | None => None
                end
            end
          else if Ascii.eqb c "{" then
            match closes "}" r with
            | Some r' => Some (Object [], r')
            | None =>
                match parse_member (parse_value fuel) r with
                | Some (k, v, r') =>
                    parse_members (parse_value fuel) (S (length r'))
                      [(k, v)] r'
                | None => None
                end
            end
          else
            match strip ["n"; "u"; "l"; "l"] (c :: r),
                  strip ["t"; "r"; "u"; "e"] (c :: r),
                  strip ["f"; "a"; "l"; "s"; "e"] (c :: r) with
            | Some r', _, _ => Some (Null, r')
            | _, Some r', _ => Some (Bool true, r')
            | _, _, Some r' => Some (Bool false, r')
            | None, None, None => parse_number (c :: r)
            end
      end
  end.

(** [JSON.parse(text)]: [None] is the SyntaxError. The fuel is above the
    length of the text, which is more than its nesting needs
    ([parse_value_fuel]). *)
Definition parse_text (text : string) : option value :=
  let cs := list_ascii_of_string text in
  match parse_value (S (length cs)) cs with
  | Some (v, r) =>
      match skip_ws r with
      | [] => Some v
      | _ => None
      end
  | None => None
  end.

(** [JSON.parse(x)] converts its argument to a string first; [None] is
    the TypeError of the conversion or the SyntaxError of the text. *)
Definition parse (x : value) : option value := to_string x ≫= parse_text.

Local Open Scope string_scope.

Definition hex_char (n : Z) : ascii :=
  if (n <? 10)%Z then byte (48 + n) else byte (87 + n).

Fixpoint quote_chars (s : string) : string :=
  match s with
  | EmptyString => ""
  | String c r =>
      let n := Z.of_nat (nat_of_ascii c) in
      (if (n =? 34)%Z then String "\" (String "034" "")
       else if (n =? 92)%Z then "\\"
       else if (n =? 8)%Z then "\b"
       else if (n =? 12)%Z then "\f"
       else if (n =? 10)%Z then "\n"
       else if (n =? 13)%Z then "\r"
       else if (n =? 9)%Z then "\t"
       else if (n <? 32)%Z then
         "\u00" ++ String (hex_char (n / 16)) (String (hex_char (n mod 16)) "")
       else String c "") ++ quote_chars r
  end.

Definition quote (s : string) : string :=
  String "034" (quote_chars s ++ String "034" "").

(** The text of a value; [None] for [undefined], which has none. In an
    array [undefined] prints as [null], in an object a property whose value
    is [undefined] is left out; an infinity and [NaN] print as [null]. *)
Fixpoint serialize (v : value) : option string :=
  match v with
  | Undefined => None
  | Null => Some "null"
  | Bool true => Some "true"
  | Bool false => Some "false"
  | Number m e => Some (number_to_string m e)
  | Infinity _ | NaN => Some "null"
  | Str s => Some (quote s)
  | Array l =>
      Some ("[" ++ join ","
        ((fix elts (l : list value) : list string :=
            match l with
            | [] => []
            | x :: r => default "null" (serialize x) :: elts r
            end) l) ++ "]")
  | Object l =>
      Some ("{" ++ join ","
        ((fix members (l : list (string * value)) : list string :=
            match l with
            | [] => []
            | (k, x) :: r =>
                match serialize x with
                | Some s => (quote k ++ ":" ++ s) :: members r
                | None => members r
                end
            end) l) ++ "}")
  end.

(** [JSON.stringify(v)]: a string, or [undefined]. *)
Definition stringify (v : value) : value :=
  match serialize v with
  | Some s => Str s
  | None => Undefined
  end.

(** A parser that leaves less than it is given. *)
Definition shortens (p : list ascii -> option (value * list ascii)) : Prop :=
  forall cs v r, p cs = Some (v, r) -> length r < length cs.

(** Two parsers that agree on the inputs shorter than [bound]. *)
Definition agree_below (bound : nat)
  (p1 p2 : list ascii -> option (value * list ascii)) : Prop :=
  forall cs, length cs < bound -> p1 cs = p2 cs.

(** A JSON text written with an apostrophe wherever it has a double
    quote: how the examples below spell their payloads. *)
Fixpoint text (s : string) : string :=
  match s with
  | EmptyString => EmptyString
  | String c r =>
      String (if Ascii.eqb c "'" then "034"%char else c) (text r)
  end.

End JSON.

(** ** The plugin manager *)

Module PluginManager.
Import JS.

(** A DOM element, known by its identity only. *)
Definition node := nat.

(** What the settings tab registers: [{ title, url }]. *)
Record descriptor := Descriptor { title : string; url : string }.

(** An entry of [self.plugins]: [{ content, modal, origin }]. *)
Record plugin := Plugin { content : node; modal : node; origin : string }.

(** The fields of the class. [plugins] and [origins] are the two objects
    used as maps, by their own properties; what a read of [self.plugins]
    finds on [Object.prototype] when the object has no such property is in
    [post]. [inFocus] is [undefined] until a tab is focused. The keys of
    [origins] are origins of windows, none of which names a member of
    [Object.prototype]; the title ['__proto__'], whose assignment rewires
    the prototype of [self.plugins] instead of adding a property, is
    outside the model. *)
Record manager := Manager {
  plugins : gmap string plugin;
  origins : gmap string string;
  inFocus : option string
}.

(** The [MessageEvent] the browser hands to the listener. *)
Module MessageEvent.
Record t := Make { type : string; origin : string; data : value }.
End MessageEvent.

(** What a call of the manager does to the outside: a [postMessage] on the
    frame of plugin [name], or the call of the member [key]/[type] of the
    plugin API on [args], the callback that the manager passes last left
    out. *)
Inductive event :=
| PostMessage (name : string) (frame : node) (targetOrigin : string)
    (message : value)
| Apply (key type : string) (args : list value).

Inductive error := SyntaxError | TypeError.

(** *** Computations of the manager

    A method reads and writes the fields, emits events, and returns or
    throws; what it wrote and emitted before a throw stays. *)

Inductive completion (A : Type) :=
| Normal (a : A)
| Throw (e : error).
Arguments Normal {A} a.
Arguments Throw {A} e.

Record outcome (A : Type) := Outcome {
  result : completion A;
  self_after : manager;
  trace : list event
}.
Arguments Outcome {A} result self_after trace.
Arguments result {A} o.
Arguments self_after {A} o.
Arguments trace {A} o.

Definition M (A : Type) : Type := manager -> outcome A.

#[export] Instance M_ret : MRet M := λ A a self, Outcome (Normal a) self [].

(** The outcome [o] of a continuation, after the events [events] that
    came before it. *)
Definition after_events {A} (events : list event) (o : outcome A)
  : outcome A :=
  Outcome (result o) (self_after o) (events ++ trace o).

#[export] Instance M_bind : MBind M := λ A B k m self,
  match m self with
  | Outcome (Normal a) self' events => after_events events (k a self')
  | Outcome (Throw e) self' events => Outcome (Throw e) self' events
  end.

Definition throw {A} (e : error) : M A := λ self, Outcome (Throw e) self [].
Definition emit (ev : event) : M unit := λ self, Outcome (Normal tt) self [ev].
Definition this : M manager := λ self, Outcome (Normal self) self [].
Definition assign (f : manager -> manager) : M unit :=
  λ self, Outcome (Normal tt) (f self) [].

Fixpoint for_each {A} (body : A -> M unit) (l : list A) : M unit :=
  match l with
  | [] => mret tt
  | x :: r => body x ;; for_each body r
  end.

(** *** The plugin API

    An endpoint is called with the request's arguments and a callback. The
    model gives an endpoint the arguments and takes from it the
    [(error, result)] pairs it calls the callback with before it returns,
    in order. A call of the callback that an endpoint makes later, from a
    task of its own, is [callback] below, run on the fields as they are
    then. An endpoint that writes the fields of the manager, or that
    catches what the callback throws, is outside the model. *)
Definition endpoint := list value -> list (value * value).

(** What [pluginAPI[key][type]] holds where it is truthy: an endpoint of
    the API, which calls back and returns, or anything else, a member
    found on the prototypes ([pluginAPI.constructor.constructor] is
    [Function]) or a value that is no function, whose [apply] calls back
    with [calls] and then throws what [raises] gives, if anything. *)
Inductive callee :=
| Endpoint (f : endpoint)
| Other (calls : endpoint) (raises : list value -> option error).

Definition calls_of (c : callee) : endpoint :=
  match c with
  | Endpoint f => f
  | Other calls _ => calls
  end.

Definition raised_by (c : callee) (args : list value) : option error :=
  match c with
  | Endpoint _ => None
  | Other _ raises => raises args
  end.

(** Modelled from the spec: the Endpoint Table, [pluginAPI.js], which is
    not among the sources: a mapping from (key, type) to a host-side
    handler function. The table has an entry wherever
    [pluginAPI[key] && pluginAPI[key][type]] is truthy, be it an endpoint
    of the API or a member that the read finds on the prototypes. *)
Abbreviation PluginAPI := (gmap string (gmap string callee)).

(** [pluginAPI[key] && pluginAPI[key][type]] for property names. *)
Definition lookup_callee (pluginAPI : PluginAPI) (key type : string)
  : option callee :=
  pluginAPI !! key ≫= λ group, group !! type.

(** The endpoint at [pluginAPI[key][type]], the two values converted to
    property names as a property read does. *)
Definition lookup_endpoint (pluginAPI : PluginAPI) (key type : value)
  : option endpoint :=
  k ← to_string key;
  t ← to_string type;
  match lookup_callee pluginAPI k t with
  | Some (Endpoint f) => Some f
  | _ => None
  end.

(** *** Methods *)

(** [post (name, value)] (lines 207-212). The guard of line 209 is truthy
    for a registered name, and also for a name that [self.plugins] has not
    itself and finds on [Object.prototype]: what it finds there has no
    [content], and line 210 throws a TypeError. *)
Definition post (name : string) (value : JS.value) : M unit :=
  self ← this;
  match plugins self !! name with
  | Some p => emit (PostMessage name (content p) (origin p) value)
  | None => if inherited name then throw TypeError else mret tt
  end.

(** [broadcast (value)] (lines 192-196): the keys of [this.plugins], one
    [post] each. The keys come in the order of the model's map, not in the
    insertion order of a JavaScript object; nothing below rests on it. *)
Definition broadcast (value : JS.value) : M unit :=
  self ← this;
  for_each (λ plugin, post plugin value) (map_to_list (plugins self)).*1.

(** [postToOrigin (origin, value)] (lines 197-201) *)
Definition postToOrigin (origin : string) (value : JS.value) : M unit :=
  self ← this;
  match origins self !! origin with
  | Some name => if truthy_string name then post name value else mret tt
  | None => mret tt
  end.

(** [register (desc, modal, content)] (lines 187-191) *)
Definition register (desc : descriptor) (modal content : node) : M unit :=
  assign (λ self,
    Manager (<[title desc := Plugin content modal (url desc)]> (plugins self))
      (origins self) (inFocus self)) ;;
  assign (λ self,
    Manager (plugins self) (<[url desc := title desc]> (origins self))
      (inFocus self)).

(** [unregister (desc)] (lines 182-186) *)
Definition unregister (desc : descriptor) : M unit :=
  assign (λ self,
    Manager (delete (title desc) (plugins self)) (origins self)
      (inFocus self)) ;;
  assign (λ self,
    Manager (plugins self) (delete (url desc) (origins self))
      (inFocus self)).

(** The fields as the constructor leaves them (lines 93-95). *)
Definition constructed : manager := Manager ∅ ∅ None.

(** [{ action: 'notification', key, type, value }], stringified. *)
Definition notification (key type : string) (value : list JS.value)
  : JS.value :=
  JSON.stringify
    (Object [("action", Str "notification"); ("key", Str key);
             ("type", Str type); ("value", Array value)]).

(** The object [response] stringifies. *)
Definition response_object (key type callid error result : value) : value :=
  Object [("id", callid); ("action", Str "response"); ("key", key);
          ("type", type); ("error", error); ("value", Array [result])].

(** [response (key, type, callid, error, result)] of the listener (lines
    160-169), for the event whose origin is [origin]. *)
Definition response (origin : string) (key type callid error result : value)
  : M unit :=
  postToOrigin origin
    (JSON.stringify (response_object key type callid error result)).

(** A property read that throws on [null] and [undefined]. *)
Definition member (v : value) (name : string) : M value :=
  match get v name with
  | Some x => mret x
  | None => throw TypeError
  end.

(** The conversion of a value to a string or a property name. *)
Definition string_of (v : value) : M string :=
  match to_string v with
  | Some s => mret s
  | None => throw TypeError
  end.

(** The callback that the listener pushes on [data.value] (lines 172-174),
    for the event whose origin is [origin] and whose payload parsed into
    [data]. *)
Definition callback (origin : string) (data error result : value) : M unit :=
  key ← member data "key";
  type ← member data "type";
  id ← member data "id";
  response origin key type id error result.

(** [callee.apply({}, args)] with the callback [cb] pushed on [args]: the
    calls of the callback that the callee makes, then its throw if it has
    one. *)
Definition apply (key type : string) (c : callee) (args : list value)
  (cb : value -> value -> M unit) : M unit :=
  emit (Apply key type args) ;;
  for_each (λ '(error, result), cb error result) (calls_of c args) ;;
  match raised_by c args with
  | Some e => throw e
  | None => mret tt
  end.

(** The listener of the window's ['message'] event (lines 155-180). Both
    [data.key] and [data.type] are converted to a string before anything
    is sent: as property names when [pluginAPI[data.key]] is truthy, in
    the template of line 178 when it is not. *)
Definition onMessage (pluginAPI : PluginAPI) (event : MessageEvent.t)
  : M unit :=
  if negb (String.eqb (MessageEvent.type event) "message") then mret tt
  else
    self ← this;
    match origins self !! MessageEvent.origin event with
    | None => mret tt
    | Some extension =>
        if negb (truthy_string extension) then mret tt
        else
          text ← string_of (MessageEvent.data event);
          data ← (match JSON.parse_text text with
                  | Some d => mret d
                  | None => throw SyntaxError
                  end);
          value ← member data "value";
          args ← (match value with
                  | Array l => mret (Str extension :: l)
                  | _ => throw TypeError
                  end);
          key ← member data "key";
          k ← string_of key;
          type ← member data "type";
          t ← string_of type;
          match lookup_callee pluginAPI k t with
          | Some c =>
              apply k t c args (callback (MessageEvent.origin event) data)
          | None =>
              id ← member data "id";
              response (MessageEvent.origin event) key type id
                (Str ("Endpoint " ++ k ++ "/" ++ t ++ " not present"))
                Null
          end
    end.

(** The notifications of the focus handler. *)
Definition unfocus : JS.value := notification "app" "unfocus" [].
Definition focus : JS.value := notification "app" "focus" [].
Definition compilationData (data : JS.value) : JS.value :=
  notification "compiler" "compilationData" [data].

(** The listener of the app's ['tabChanged'] event (lines 123-153). The
    guard of line 134 is taken as false for a tab that is no registered
    plugin: the event carries the names of the app's tabs, and a tab that
    is no plugin's while it names a member of [Object.prototype] is outside
    the model. *)
Definition tabChanged (pluginAPI : PluginAPI) (tabName : string) : M unit :=
  self ← this;
  match inFocus self with
  | Some focused =>
      if truthy_string focused && negb (String.eqb focused tabName)
      then post focused unfocus
      else mret tt
  | None => mret tt
  end ;;
  self ← this;
  match plugins self !! tabName with
  | Some _ =>
      post tabName focus ;;
      assign (λ self, Manager (plugins self) (origins self) (Some tabName)) ;;
      match lookup_callee pluginAPI "compiler" "getCompilationResult" with
      | Some getCompilationResult =>
          apply "compiler" "getCompilationResult" getCompilationResult
            [Str tabName]
            (λ error data,
               if negb (truthy error) then mret tt
               else post tabName (compilationData data))
      | None => throw TypeError
      end
  | None => mret tt
  end.

(** The [postMessage] that delivers [value] to a registered plugin, and the
    plugin an event is a delivery to. *)
Definition delivery (value : JS.value) (entry : string * plugin) : event :=
  PostMessage entry.1 (content entry.2) (origin entry.2) value.


(** What the focus handler posts for the callback calls [(error, data)]
    of [getCompilationResult]. *)
Definition data_posts (tabName : string) (p : plugin)
  (calls : list (JS.value * JS.value)) : list event :=
  flat_map
    (λ '(error, data),
       if truthy error
       then [PostMessage tabName (content p) (origin p) (compilationData data)]
       else [])
    calls.

(** The listeners of the file manager, the compiler and the transaction
    listener (lines 96-121), which broadcast. [provider] is what
    [executionContext.getProvider()] returns. *)
Definition currentFileChanged (file : value) : M unit :=
  broadcast (notification "editor" "currentFileChanged" [file]).

Definition compilationFinished (success data source : value) : M unit :=
  broadcast (notification "compiler" "compilationFinished"
               [success; data; source]).

Definition newTransaction (provider : string) (tx : value) : M unit :=
  if negb (String.eqb provider "vm") then mret tt
  else broadcast (notification "txlistener" "newTransaction" [tx]).

End PluginManager.

(** ** The protocol's envelopes *)

Module Envelope.
Import JS.

(** The three messages of the protocol, as the header of the source lists
    them: a request carries [id], [key], [type] and the arguments; a
    response echoes the first three and carries [error] and the result
    alone in [value]; a notification has no [id]. *)
Inductive t :=
| Request (id : value) (key type : string) (args : list value)
| Response (id : value) (key type : string) (error : value)
    (results : list value)
| Notification (key type : string) (args : list value).

Definition is_number (v : value) : bool :=
  match v with
  | Number _ _ | Infinity _ | NaN => true
  | _ => false
  end.

(** The envelope a decoded JSON value is, when it has the shape of one:
    [action] names the kind, [key] and [type] are strings, [value] is an
    array, [id] is a number where the kind has one. *)
Definition decode (d : value) : option t :=
  match d with
  | Object props =>
      match assoc "action" props, assoc "key" props, assoc "type" props,
            assoc "value" props with
      | Some (Str action), Some (Str key), Some (Str type), Some (Array l) =>
          let id := default Undefined (assoc "id" props) in
          if String.eqb action "request" then
            if is_number id then Some (Request id key type l) else None
          else if String.eqb action "response" then
            if is_number id && (length l =? 1)%nat
            then Some (Response id key type
                         (default Undefined (assoc "error" props)) l)
            else None
          else if String.eqb action "notification" then
            match assoc "id" props with
            | None => Some (Notification key type l)
            | Some _ => None
            end
          else None
      | _, _, _, _ => None
      end
  | _ => None
  end.

(** A raw payload that is the JSON text of an envelope. *)
Definition of_payload (raw : value) : option t :=
  JSON.parse raw ≫= decode.

End Envelope.

(** ** Histories of the registry *)

Module Registry.
Import PluginManager.

(** A call of one of the two methods that write the registry. *)
Inductive call :=
| Register (desc : descriptor) (modal content : node)
| Unregister (desc : descriptor).

Definition descriptor_of (c : call) : descriptor :=
  match c with
  | Register desc _ _ | Unregister desc => desc
  end.

Definition perform (c : call) : M unit :=
  match c with
  | Register desc modal content => register desc modal content
  | Unregister desc => unregister desc
  end.

(** The fields after a sequence of calls, on [self] and on the constructed
    manager. *)
Definition after_on (self : manager) (calls : list call) : manager :=
  fold_left (λ self c, self_after (perform c self)) calls self.


(** The invariant the data model asks of the two maps: an origin maps to a
    title exactly when that title's plugin records the origin. *)
Definition consistent (self : manager) : Prop :=
  forall u t,
    origins self !! u = Some t
    <-> exists p, plugins self !! t = Some p /\ origin p = u.

(** A descriptor that fits the fields: its title is not registered or is
    registered with the url of the descriptor, and its url is not mapped or
    is mapped to the title of the descriptor. *)
Definition fits (self : manager) (desc : descriptor) : bool :=
  match plugins self !! title desc with
  | Some p => String.eqb (origin p) (url desc)
  | None => true
  end
  && match origins self !! url desc with
     | Some t => String.eqb t (title desc)
     | None => true
     end.

(** Calls each of which has a descriptor that fits the fields it is made
    on. *)
Fixpoint fitting (self : manager) (calls : list call) : bool :=
  match calls with
  | [] => true
  | c :: rest =>
      fits self (descriptor_of c)
      && fitting (self_after (perform c self)) rest
  end.

End Registry.

(** ** A session to run the model on

    Two plugins registered from the constructed manager, and a plugin API
    with a configuration endpoint and the compiler's. *)

Module Session.
Import JS PluginManager.

Definition A : descriptor := Descriptor "A" "https://a".
Definition B : descriptor := Descriptor "B" "https://b".

Definition two : manager :=
  self_after ((register A 1 2 ;; register B 3 4) constructed).

Definition getConfig : endpoint := λ args, [(Null, Str "hello")].

(** The compiler endpoint of a session that compiled, and of one that did
    not. *)
Definition compiled : endpoint :=
  λ args, [(Null, Object [("contracts", Object [])])].
Definition not_compiled : endpoint :=
  λ args, [(Str "no compilation result", Undefined)].

Definition api (getCompilationResult : endpoint) : PluginAPI :=
  {[ "config" := {[ "getConfig" := Endpoint getConfig ]};
     "compiler" :=
       {[ "getCompilationResult" := Endpoint getCompilationResult ]} ]}.

(** Payloads: a request for the configuration endpoint, and one for an
    endpoint the plugin API has not. *)
Definition get_config : string :=
  "{'id':1,'action':'request','key':'config','type':'getConfig','value':['f.txt']}".
Definition get_nothing : string :=
  "{'id':7,'action':'request','key':'nope','type':'x','value':[]}".

Definition message (from text : string) : MessageEvent.t :=
  MessageEvent.Make "message" from (Str (JSON.text text)).

End Session.

(** ** What a message makes the manager send *)

Module Routing.
Import JS PluginManager.

(** What becomes of a [post]: it is delivered on the frame of a registered
    plugin, it is dropped at the guard, or it passes the guard on a member
    of [Object.prototype] and throws. *)
Inductive posting :=
| Delivers (name : string) (p : plugin)
| Drops
| Raises.

Definition posting_to (self : manager) (name : string) : posting :=
  match plugins self !! name with
  | Some p => Delivers name p
  | None => if inherited name then Raises else Drops
  end.

(** The same for [postToOrigin (from, value)]. *)
Definition posting_from (self : manager) (from : string) : posting :=
  match origins self !! from with
  | Some name => if truthy_string name then posting_to self name else Drops
  | None => Drops
  end.

Definition posted (w : posting) (value : JS.value) : list event :=
  match w with
  | Delivers name p => [PostMessage name (content p) (origin p) value]
  | Drops | Raises => []
  end.

Definition completes (w : posting) : completion unit :=
  match w with
  | Raises => Throw TypeError
  | Delivers _ _ | Drops => Normal tt
  end.

(** A loop of posts of the kind [w]: the first one that throws ends it. *)
Definition rounds {A} (w : posting) (xs : list A) : completion unit :=
  match xs with
  | [] => Normal tt
  | _ :: _ => completes w
  end.

(** A callee that has been called back returns or throws. *)
Definition finishes (c : callee) (args : list value) : completion unit :=
  match raised_by c args with
  | Some e => Throw e
  | None => Normal tt
  end.

Definition and_then (r1 r2 : completion unit) : completion unit :=
  match r1 with
  | Normal _ => r2
  | Throw e => Throw e
  end.

(** What [postToOrigin (from, value)] posts on the fields [self]. *)
Definition sent (self : manager) (from : string) (value : JS.value)
  : list event :=
  posted (posting_from self from) value.

(** The text of the response to the request [data] for a callback call. *)
Definition answer (data error result : value) : value :=
  JSON.stringify
    (response_object (default Undefined (get data "key"))
       (default Undefined (get data "type"))
       (default Undefined (get data "id")) error result).

(** The listener once the payload parsed into [data] with the array [l] at
    [data.value] and the names [k] and [t] for [data.key] and [data.type]:
    the call of the callee and what each of its callback calls posts, or
    the response that names the missing endpoint. *)
Definition dispatched (pluginAPI : PluginAPI) (self : manager)
  (from extension : string) (data : value) (l : list value) (k t : string)
  : outcome unit :=
  let w := posting_from self from in
  match lookup_callee pluginAPI k t with
  | Some c =>
      let calls := calls_of c (Str extension :: l) in
      Outcome
        (and_then (rounds w calls) (finishes c (Str extension :: l)))
        self
        (Apply k t (Str extension :: l)
         :: flat_map (λ '(error, result), posted w (answer data error result))
              calls)
  | None =>
      Outcome (completes w) self
        (posted w
           (answer data
              (Str ("Endpoint " ++ k ++ "/" ++ t ++ " not present")) Null))
  end.

(** The listener in full, by the tests it makes. *)
Definition listened (pluginAPI : PluginAPI) (event : MessageEvent.t)
  (self : manager) : outcome unit :=
  if String.eqb (MessageEvent.type event) "message" then
    match origins self !! MessageEvent.origin event with
    | Some extension =>
        if truthy_string extension then
          match to_string (MessageEvent.data event) with
          | Some text =>
              match JSON.parse_text text with
              | Some data =>
                  match get data "value" with
                  | Some (Array l) =>
                      match to_string (default Undefined (get data "key")),
                            to_string (default Undefined (get data "type"))
                      with
                      | Some k, Some t =>
                          dispatched pluginAPI self
                            (MessageEvent.origin event) extension data l k t
                      | _, _ => Outcome (Throw TypeError) self []
                      end
                  | _ => Outcome (Throw TypeError) self []
                  end
              | None => Outcome (Throw SyntaxError) self []
              end
          | None => Outcome (Throw TypeError) self []
          end
        else Outcome (Normal tt) self []
    | None => Outcome (Normal tt) self []
    end
  else Outcome (Normal tt) self [].

(** The responses to the callback calls [calls] of an endpoint, on the
    frame of plugin [name] for the origin [targetOrigin]: each is the text
    of the object that line 161 builds. *)
Definition responses (name : string) (frame : node) (targetOrigin : string)
  (key type : string) (id : value) (calls : list (value * value))
  : list event :=
  (λ '(error, result),
     PostMessage name frame targetOrigin
       (JSON.stringify
          (Object [("id", id); ("action", Str "response"); ("key", Str key);
                   ("type", Str type); ("error", error);
                   ("value", Array [result])])))
  <$> calls.

(** A [postMessage] of the listener goes to the plugin the origin of the
    event maps to, on the frame and for the origin registered for it. *)
Definition to_sender (self : manager) (from : string) (ev : event) : Prop :=
  match ev with
  | PostMessage name frame targetOrigin _ =>
      origins self !! from = Some name
      /\ exists p, plugins self !! name = Some p
                  /\ frame = content p /\ targetOrigin = origin p
  | Apply _ _ _ => True
  end.

(** The tab change throws at the [unfocus]: the plugin in focus is another
    one than the tab, is not registered, and is named like a member of
    [Object.prototype]. *)
Definition unfocus_raises (self : manager) (tabName : string) : bool :=
  match inFocus self with
  | Some focused =>
      truthy_string focused && negb (String.eqb focused tabName)
      && bool_decide (plugins self !! focused = None) && inherited focused
  | None => false
  end.

(** The [unfocus] a tab change to [tabName] sends: to the plugin in focus,
    when it is another one and still registered. *)
Definition unfocus_events (self : manager) (tabName : string) : list event :=
  match inFocus self with
  | Some focused =>
      if truthy_string focused && negb (String.eqb focused tabName)
      then match plugins self !! focused with
           | Some q => [PostMessage focused (content q) (origin q) unfocus]
           | None => []
           end
      else []
  | None => []
  end.

(** A [postMessage] to the tab that changed or to the plugin in focus. *)
Definition to_tab_or_focus (self : manager) (tabName : string) (ev : event)
  : Prop :=
  match ev with
  | PostMessage name _ _ _ => name = tabName \/ inFocus self = Some name
  | Apply _ _ _ => True
  end.

(** A [postMessage] whose target origin is [from]. *)
Definition back_to (from : string) (ev : event) : Prop :=
  match ev with
  | PostMessage _ _ targetOrigin _ => targetOrigin = from
  | Apply _ _ _ => True
  end.

(** A [postMessage] on the frame and for the origin that [plugins] records
    for the plugin it names. *)
Definition to_registered (self : manager) (ev : event) : Prop :=
  match ev with
  | PostMessage name frame targetOrigin _ =>
      exists p, plugins self !! name = Some p
                /\ frame = content p /\ targetOrigin = origin p
  | Apply _ _ _ => True
  end.

(** An event of a message handled for the plugin [name]: an endpoint call
    with [name] as its first argument, or a [postMessage] to [name] on
    [frame] for [targetOrigin]. *)
Definition handled_for (name : string) (frame : node) (targetOrigin : string)
  (ev : event) : Prop :=
  match ev with
  | Apply _ _ args => exists l, args = Str name :: l
  | PostMessage name' frame' targetOrigin' _ =>
      name' = name /\ frame' = frame /\ targetOrigin' = targetOrigin
  end.

End Routing.

(** ** Histories of the manager *)

Module History.
Import JS PluginManager.

(** What happens to a manager: a call of [register] or [unregister], a tab
    change, a message, a broadcast, and the call that an endpoint makes of
    the callback of an earlier message after the listener returned. Each
    is a task of its own: a listener that throws ends its task, and the
    next one runs on the fields it left. *)
Inductive step :=
| Register (desc : descriptor) (modal content : node)
| Unregister (desc : descriptor)
| TabChanged (tabName : string)
| Message (event : MessageEvent.t)
| Broadcast (value : value)
| Complete (from : string) (data error result : value).

Definition perform (pluginAPI : PluginAPI) (s : step) : M unit :=
  match s with
  | Register desc modal content => register desc modal content
  | Unregister desc => unregister desc
  | TabChanged tabName => tabChanged pluginAPI tabName
  | Message event => onMessage pluginAPI event
  | Broadcast value => broadcast value
  | Complete from data error result => callback from data error result
  end.

(** The fields after the steps, and the events of all of them. *)
Fixpoint run (pluginAPI : PluginAPI) (steps : list step) (self : manager)
  : manager * list event :=
  match steps with
  | [] => (self, [])
  | s :: rest =>
      let o := perform pluginAPI s self in
      let '(self', events) := run pluginAPI rest (self_after o) in
      (self', (trace o ++ events)%list)
  end.

Definition is_register (s : step) : bool :=
  match s with
  | Register _ _ _ => true
  | _ => false
  end.

Definition is_unregister (s : step) : bool :=
  match s with
  | Unregister _ => true
  | _ => false
  end.

(** Every origin of [origins] maps to a title of [plugins], and [inFocus],
    when set, names a title of [plugins]. *)
Definition resolvable (self : manager) : Prop :=
  forall u t, origins self !! u = Some t -> is_Some (plugins self !! t).

Definition focus_registered (self : manager) : Prop :=
  forall t, inFocus self = Some t -> is_Some (plugins self !! t).

(** A [postMessage] on a frame that one of [steps] registered, for the
    title and the origin it was registered with. *)
Definition registered_by (steps : list step) (ev : event) : Prop :=
  match ev with
  | PostMessage name frame targetOrigin _ =>
      exists modal,
        Register (Descriptor name targetOrigin) modal frame ∈ steps
  | Apply _ _ _ => True
  end.

End History.

(** ** More endpoints and payloads to run the model on *)

Module Cases.
Import JS PluginManager.

(** An endpoint that calls the callback twice, and one that never does. *)
Definition twice : endpoint :=
  λ args, [(Null, Str "first"); (Str "changed my mind", Undefined)].
Definition silent : endpoint := λ args, [].

(** What the plugin API has besides its endpoints: [Function] at
    ['constructor']['constructor'], which throws a SyntaxError on an
    argument list that names no parameters, and the number at
    ['constructor']['length'], which has no [apply]. *)
Definition api : PluginAPI :=
  {[ "app" := {[ "twice" := Endpoint twice; "silent" := Endpoint silent ]};
     "compiler" :=
       {[ "getCompilationResult" := Endpoint Session.compiled ]};
     "constructor" :=
       {[ "constructor" := Other silent (λ _, Some SyntaxError);
          "length" := Other silent (λ _, Some TypeError) ]} ]}.

(** A request for [app/twice], and the same members under another
    [action] with one member more. *)
Definition ask_twice : string :=
  "{'id':3,'action':'request','key':'app','type':'twice','value':[true]}".
Definition ask_twice_as_response : string :=
  "{'action':'response','value':[true],'type':'twice','key':'app','id':3,'error':null}".
Definition ask_silent : string :=
  "{'id':4,'action':'request','key':'app','type':'silent','value':[]}".

(** A request whose [id] is no double, one whose [key] has a [toString]
    member, and one for [Function]. *)
Definition ask_big : string :=
  "{'id':9007199254740993,'action':'request','key':'config','type':'getConfig','value':['f.txt']}".
Definition ask_object : string :=
  "{'id':5,'action':'request','key':{'toString':1},'type':'x','value':[]}".
Definition ask_function : string :=
  "{'id':6,'action':'request','key':'constructor','type':'constructor','value':[]}".

(** A descriptor that [Session.two] has neither the title nor the origin
    of, one that takes over the origin of B, and one whose title names a
    member of [Object.prototype]. *)
Definition C : descriptor := Descriptor "C" "https://c".
Definition C_at_b : descriptor := Descriptor "C" "https://b".
Definition constructor : descriptor :=
  Descriptor "constructor" "https://k".

(** Two histories: one with no [unregister], one with no [register]. *)
Definition growing : list History.step :=
  [History.Register Session.A 1 2;
   History.Message (Session.message "https://a" ask_twice);
   History.Register C_at_b 5 6;
   History.TabChanged "A";
   History.TabChanged "settings";
   History.Broadcast (Str "x")].

Definition idle : list History.step :=
  [History.TabChanged "A";
   History.Message (Session.message "https://a" ask_twice);
   History.Broadcast (Str "x");
   History.Unregister Session.A].

End Cases.

(** ** Properties *)

Import JS PluginManager.

(** *** JSON texts the model reads and writes *)

Example parse_request :
  JSON.parse (JS.Str (JSON.text
    "{'id':1,'action':'request','key':'config','type':'getConfig','value':['f.txt']}"))
  = Some (JS.Object [("id", JS.Number 1 0); ("action", JS.Str "request");
                     ("key", JS.Str "config"); ("type", JS.Str "getConfig");
                     ("value", JS.Array [JS.Str "f.txt"])]).
Proof. vm_compute. reflexivity. Qed.

Example parse_nested :
  JSON.parse (JS.Str (JSON.text
    " { 'a' : [ 1.50, -2e3, true, null, { 'b' : 'x\ny\u0041' } ], 'a' : [ ] , 'c' : 0.000 } "))
  = Some (JS.Object [("a", JS.Array []); ("c", JS.Number 0 0)]).
Proof. vm_compute. reflexivity. Qed.

Example parse_numbers :
  JSON.parse (JS.Str "[1.50, -2e3, 10, 0.25e1, -0, 1e400, -1e400, 1e-400]")
  = Some (JS.Array [JS.Number 15 (-1); JS.Number (-2) 3; JS.Number 1 1;
                    JS.Number 25 (-1); JS.Number 0 0; JS.Infinity false;
                    JS.Infinity true; JS.Number 0 0]).
Proof. vm_compute. reflexivity. Qed.

(** A number is read as the nearest double and printed with the fewest
    digits that read back as it. *)
Example parse_rounds :
  JSON.parse (JS.Str "9007199254740993") = Some (JS.Number 9007199254740992 0)
  /\ JSON.parse (JS.Str "0.1")
     = Some (JS.Number
               1000000000000000055511151231257827021181583404541015625 (-55))
  /\ (JSON.stringify <$> JSON.parse (JS.Str
        "[9007199254740993, 0.1, 0.025, 1e21, 123456789012345680000, 1e-7, 0.000001, 5e-324, 1.7976931348623157e308, 1e400]"))
     = Some (JS.Str
        "[9007199254740992,0.1,0.025,1e+21,123456789012345680000,1e-7,0.000001,5e-324,1.7976931348623157e+308,null]").
Proof. repeat split; vm_compute; reflexivity. Qed.

(** The properties of a parsed object come with the array indices first,
    in ascending order, then the other names as they were written; a name
    written twice keeps its first place and its last value. *)
Example parse_orders_members :
  JSON.parse (JS.Str (JSON.text "{'b':1,'10':2,'a':3,'2':4,'b':5,'01':6}"))
  = Some (JS.Object [("2", JS.Number 4 0); ("10", JS.Number 2 0);
                     ("b", JS.Number 5 0); ("a", JS.Number 3 0);
                     ("01", JS.Number 6 0)]).
Proof. vm_compute. reflexivity. Qed.

Example parse_escapes :
  JSON.parse (JS.Str (JSON.text "'x\ny\u0041\/\u00e9'"))
  = Some (JS.Str (String "x" (String "010" (String "y" (String "A"
            (String "/" (String "195" (String "169" ""))))))))
  /\ JSON.stringify (JS.Str (String "x" (String "010" (String "034" "y"))))
     = JS.Str (JSON.text "'x\n\'y'").
Proof. vm_compute. split; reflexivity. Qed.

Example parse_rejects :
  map (fun s => JSON.parse (JS.Str (JSON.text s)))
    [""; "{"; "[1,]"; "{'a':1,}"; "01"; "1."; "nul"; "'a"; "{a:1}"; "[1] x";
     "'\x'"; "undefined"; "+1"; ".5"]
  = repeat None 14.
Proof. vm_compute. reflexivity. Qed.

Example stringify_response :
  JSON.stringify
    (JS.Object [("id", JS.Number 1 0); ("action", JS.Str "response");
                ("key", JS.Str "config"); ("type", JS.Str "getConfig");
                ("error", JS.Undefined); ("value", JS.Array [JS.Undefined])])
  = JS.Str (JSON.text
      "{'id':1,'action':'response','key':'config','type':'getConfig','value':[null]}").
Proof. vm_compute. reflexivity. Qed.

Example to_string_examples :
  map JS.to_string
    [JS.Number 15 (-1); JS.Number (-2) 3; JS.Number 0 0; JS.Number 1 21;
     JS.Infinity true; JS.NaN;
     JS.Array [JS.Number 1 0; JS.Null; JS.Str "a"; JS.Array [JS.Bool true]];
     JS.Object []; JS.Object [("toString", JS.Number 1 0)];
     JS.Array [JS.Object [("toString", JS.Null)]]]
  = [Some "1.5"; Some "-2000"; Some "0"; Some "1e+21"; Some "-Infinity";
     Some "NaN"; Some "1,,a,true"; Some "[object Object]"; None; None].
Proof. vm_compute. reflexivity. Qed.

(** *** The fuel of the parser

    A parser leaves less input than it was given, so the nesting of a text
    is below its length: above that, the fuel does not matter. *)

Section Fuel.

Import JSON.

Lemma skip_ws_length cs : length (skip_ws cs) <= length cs.
Proof.
  induction cs as [|c cs IH]; [done|]. cbn.
  destruct (is_ws c); cbn; lia.
Qed.

Lemma parse_chars_shorter cs s r :
  parse_chars cs = Some (s, r) -> length r < length cs.
Proof.
  remember (length cs) as n eqn:Hn. revert cs s r Hn.
  induction (lt_wf n) as [n _ IH]. intros cs s r -> H.
  destruct cs as [|c cs]; [done|]. cbn [parse_chars] in H.
  destruct (Ascii.eqb c "034").
  { simplify_eq. cbn. lia. }
  destruct (Ascii.eqb c "\").
  - destruct cs as [|e cs]; [done|].
    destruct (Ascii.eqb e "u").
    + destruct cs as [|a [|b [|c' [|d r2]]]]; try done.
      repeat case_match; simplify_eq.
      match goal with
      | Hr : parse_chars r2 = Some _ |- _ =>
          eapply (IH (length r2)) in Hr; [|cbn; lia|done]
      end.
      cbn. lia.
    + repeat case_match; simplify_eq.
      match goal with
      | Hr : parse_chars cs = Some _ |- _ =>
          eapply (IH (length cs)) in Hr; [|cbn; lia|done]
      end.
      cbn. lia.
  - repeat case_match; simplify_eq.
    match goal with
    | Hr : parse_chars cs = Some _ |- _ =>
        eapply (IH (length cs)) in Hr; [|cbn; lia|done]
    end.
    cbn. lia.
Qed.

Lemma take_digits_length cs ds r :
  take_digits cs = (ds, r) -> length r + length ds = length cs.
Proof.
  revert ds r. induction cs as [|c cs IH]; intros ds r H; cbn in H.
  - by simplify_eq.
  - destruct (digit c); [|by simplify_eq].
    destruct (take_digits cs) as [ds' r'] eqn:Hcs. simplify_eq.
    specialize (IH _ _ eq_refl). cbn. lia.
Qed.

Lemma take_sign_length plus cs neg r :
  take_sign plus cs = (neg, r) -> length r <= length cs.
Proof.
  unfold take_sign. intros H.
  repeat case_match; simplify_eq; cbn; lia.
Qed.

Lemma take_fraction_length cs frac r :
  take_fraction cs = Some (frac, r) -> length r <= length cs.
Proof.
  unfold take_fraction. intros H.
  repeat case_match; simplify_eq; cbn; try lia.
  match goal with
  | Hd : take_digits _ = _ |- _ => apply take_digits_length in Hd
  end.
  cbn in *. lia.
Qed.

Lemma take_exponent_length cs x r :
  take_exponent cs = Some (x, r) -> length r <= length cs.
Proof.
  unfold take_exponent. intros H.
  repeat case_match; simplify_eq; cbn; try lia.
  all: match goal with
       | Hd : take_digits _ = _, Hs : take_sign _ _ = _ |- _ =>
           apply take_digits_length in Hd; apply take_sign_length in Hs
       end; cbn in *; lia.
Qed.

Lemma parse_number_shorter cs v r :
  parse_number cs = Some (v, r) -> length r < length cs.
Proof.
  unfold parse_number. intros H.
  destruct (take_sign false cs) as [neg r0] eqn:Hs.
  destruct (take_digits r0) as [int r1] eqn:Hd.
  apply take_sign_length in Hs. apply take_digits_length in Hd.
  assert (int ≠ [] -> length r < length cs) as Hgoal.
  { intros Hint.
    destruct (take_fraction r1) as [[frac r2]|] eqn:Hf;
      [|by repeat case_match].
    destruct (take_exponent r2) as [[x r3]|] eqn:Hx;
      [|by repeat case_match].
    apply take_fraction_length in Hf. apply take_exponent_length in Hx.
    assert (r = r3) as -> by (repeat case_match; by simplify_eq).
    destruct int; [done|]. cbn in Hd. lia. }
  destruct int; [done|]. by apply Hgoal.
Qed.

Lemma parse_elements_shorter p n acc cs v r :
  shortens p ->
  parse_elements p n acc cs = Some (v, r) -> length r < length cs.
Proof.
  intros Hp. revert acc cs.
  induction n as [|n IH]; intros acc cs H; [done|]. cbn [parse_elements] in H.
  pose proof (skip_ws_length cs) as Hws.
  destruct (skip_ws cs) as [|c r0]; [done|]. cbn in Hws.
  destruct (Ascii.eqb c "]"); [simplify_eq; lia|].
  destruct (Ascii.eqb c ","); [|done].
  destruct (p r0) as [[v' r']|] eqn:Hv; [|done].
  apply Hp in Hv. apply IH in H. lia.
Qed.

Lemma parse_member_shorter p cs k v r :
  shortens p ->
  parse_member p cs = Some (k, v, r) -> length r < length cs.
Proof.
  intros Hp H. unfold parse_member in H.
  pose proof (skip_ws_length cs) as Hws.
  destruct (skip_ws cs) as [|c r0]; [done|]. cbn in Hws.
  destruct (Ascii.eqb c "034"); [|done].
  destruct (parse_chars r0) as [[k' r1]|] eqn:Hk; [|done].
  apply parse_chars_shorter in Hk.
  pose proof (skip_ws_length r1) as Hws1.
  destruct (skip_ws r1) as [|c' r2]; [done|]. cbn in Hws1.
  destruct (Ascii.eqb c' ":"); [|done].
  destruct (p r2) as [[v' r3]|] eqn:Hv; [|done].
  apply Hp in Hv. simplify_eq. lia.
Qed.

Lemma parse_members_shorter p n acc cs v r :
  shortens p ->
  parse_members p n acc cs = Some (v, r) -> length r < length cs.
Proof.
  intros Hp. revert acc cs.
  induction n as [|n IH]; intros acc cs H; [done|]. cbn [parse_members] in H.
  pose proof (skip_ws_length cs) as Hws.
  destruct (skip_ws cs) as [|c r0]; [done|]. cbn in Hws.
  destruct (Ascii.eqb c "}"); [simplify_eq; lia|].
  destruct (Ascii.eqb c ","); [|done].
  destruct (parse_member p r0) as [[[k' v'] r']|] eqn:Hm; [|done].
  apply parse_member_shorter in Hm; [|done]. apply IH in H. lia.
Qed.

Lemma strip_length lit cs r :
  strip lit cs = Some r -> length r + length lit = length cs.
Proof.
  revert cs. induction lit as [|a lit IH]; intros cs H; cbn in H.
  - simplify_eq. cbn. lia.
  - destruct cs as [|c cs]; [done|]. destruct (Ascii.eqb a c); [|done].
    apply IH in H. cbn. lia.
Qed.

Lemma closes_shorter close cs r :
  closes close cs = Some r -> length r < length cs.
Proof.
  unfold closes. intros H. pose proof (skip_ws_length cs) as Hws.
  destruct (skip_ws cs) as [|c r0]; [done|]. cbn in Hws.
  destruct (Ascii.eqb c close); simplify_eq. lia.
Qed.

Lemma parse_value_shorter fuel : shortens (parse_value fuel).
Proof.
  induction fuel as [|fuel IH]; intros cs v r H; [done|].
  cbn [parse_value] in H.
  pose proof (skip_ws_length cs) as Hws.
  destruct (skip_ws cs) as [|c r0]; [done|]. cbn in Hws.
  destruct (Ascii.eqb c "034").
  { destruct (parse_chars r0) as [[s r1]|] eqn:Hs; [|done].
    apply parse_chars_shorter in Hs. simplify_eq. lia. }
  destruct (Ascii.eqb c "[").
  { destruct (closes "]" r0) as [r1|] eqn:Hc.
    - apply closes_shorter in Hc. simplify_eq. lia.
    - destruct (parse_value fuel r0) as [[v1 r1]|] eqn:Hv; [|done].
      apply IH in Hv. apply parse_elements_shorter in H; [lia|done]. }
  destruct (Ascii.eqb c "{").
  { destruct (closes "}" r0) as [r1|] eqn:Hc.
    - apply closes_shorter in Hc. simplify_eq. lia.
    - destruct (parse_member (parse_value fuel) r0) as [[[k1 v1] r1]|] eqn:Hm;
        [|done].
      apply parse_member_shorter in Hm; [|done].
      apply parse_members_shorter in H; [lia|done]. }
  repeat match type of H with
         | match strip ?lit ?cs with _ => _ end = _ =>
             let Hlit := fresh "Hlit" in
             destruct (strip lit cs) as [r1|] eqn:Hlit;
             [apply strip_length in Hlit; simplify_eq; cbn in *; lia|]
         end.
  apply parse_number_shorter in H. cbn in H. lia.
Qed.

Lemma parse_elements_agree p1 p2 bound n1 n2 acc cs :
  shortens p1 -> agree_below bound p1 p2 ->
  length cs <= bound -> length cs < n1 -> length cs < n2 ->
  parse_elements p1 n1 acc cs = parse_elements p2 n2 acc cs.
Proof.
  intros Hp Hagree. revert n2 acc cs.
  induction n1 as [|n1 IH]; intros n2 acc cs Hb H1 H2; [lia|].
  destruct n2 as [|n2]; [lia|]. cbn [parse_elements].
  pose proof (skip_ws_length cs) as Hws.
  destruct (skip_ws cs) as [|c r0]; [done|]. cbn in Hws.
  destruct (Ascii.eqb c "]"); [done|].
  destruct (Ascii.eqb c ","); [|done].
  rewrite <- (Hagree r0) by lia.
  destruct (p1 r0) as [[v' r']|] eqn:Hv; [|done].
  apply Hp in Hv. apply IH; lia.
Qed.

Lemma parse_member_agree p1 p2 bound cs :
  agree_below bound p1 p2 -> length cs <= bound ->
  parse_member p1 cs = parse_member p2 cs.
Proof.
  intros Hagree Hb. unfold parse_member.
  pose proof (skip_ws_length cs) as Hws.
  destruct (skip_ws cs) as [|c r0]; [done|]. cbn in Hws.
  destruct (Ascii.eqb c "034"); [|done].
  destruct (parse_chars r0) as [[k' r1]|] eqn:Hk; [|done].
  apply parse_chars_shorter in Hk.
  pose proof (skip_ws_length r1) as Hws1.
  destruct (skip_ws r1) as [|c' r2]; [done|]. cbn in Hws1.
  destruct (Ascii.eqb c' ":"); [|done].
  rewrite (Hagree r2) by lia. done.
Qed.

Lemma parse_members_agree p1 p2 bound n1 n2 acc cs :
  shortens p1 -> agree_below bound p1 p2 ->
  length cs <= bound -> length cs < n1 -> length cs < n2 ->
  parse_members p1 n1 acc cs = parse_members p2 n2 acc cs.
Proof.
  intros Hp Hagree. revert n2 acc cs.
  induction n1 as [|n1 IH]; intros n2 acc cs Hb H1 H2; [lia|].
  destruct n2 as [|n2]; [lia|]. cbn [parse_members].
  pose proof (skip_ws_length cs) as Hws.
  destruct (skip_ws cs) as [|c r0]; [done|]. cbn in Hws.
  destruct (Ascii.eqb c "}"); [done|].
  destruct (Ascii.eqb c ","); [|done].
  rewrite <- (parse_member_agree p1 p2 bound r0) by (done || lia).
  destruct (parse_member p1 r0) as [[[k' v'] r']|] eqn:Hm; [|done].
  apply parse_member_shorter in Hm; [|done]. apply IH; lia.
Qed.

(** Above the length of the input, the fuel does not change what
    [parse_value] returns. *)
Lemma parse_value_fuel fuel1 fuel2 cs :
  length cs < fuel1 -> length cs < fuel2 ->
  parse_value fuel1 cs = parse_value fuel2 cs.
Proof.
  revert fuel2 cs. induction fuel1 as [|fuel1 IH]; intros fuel2 cs H1 H2;
    [lia|].
  destruct fuel2 as [|fuel2]; [lia|]. cbn [parse_value].
  pose proof (skip_ws_length cs) as Hws.
  destruct (skip_ws cs) as [|c r0]; [done|]. cbn in Hws.
  assert (agree_below (length r0 + 1) (parse_value fuel1) (parse_value fuel2))
    as Hagree by (intros cs' Hcs'; apply IH; lia).
  destruct (Ascii.eqb c "034"); [done|].
  destruct (Ascii.eqb c "[").
  { destruct (closes "]" r0); [done|].
    rewrite <- (Hagree r0) by lia.
    destruct (parse_value fuel1 r0) as [[v1 r1]|] eqn:Hv; [|done].
    apply parse_value_shorter in Hv.
    apply (parse_elements_agree _ _ (length r0 + 1));
      [apply parse_value_shorter|done|lia..]. }
  destruct (Ascii.eqb c "{").
  { destruct (closes "}" r0); [done|].
    rewrite <- (parse_member_agree _ _ _ r0 Hagree) by lia.
    destruct (parse_member (parse_value fuel1) r0) as [[[k1 v1] r1]|] eqn:Hm;
      [|done].
    apply parse_member_shorter in Hm; [|apply parse_value_shorter].
    apply (parse_members_agree _ _ (length r0 + 1));
      [apply parse_value_shorter|done|lia..]. }
  done.
Qed.

(** [JSON.parse] with any fuel above the length of the text. *)
Lemma parse_text_fuel text fuel :
  length (list_ascii_of_string text) < fuel ->
  parse_text text
  = match parse_value fuel (list_ascii_of_string text) with
    | Some (v, r) => match skip_ws r with [] => Some v | _ => None end
    | None => None
    end.
Proof.
  intros H. unfold parse_text.
  by rewrite (parse_value_fuel _ fuel) by lia.
Qed.

End Fuel.

(** *** The computations *)

(** Unfolds the plumbing of [M] so that a method applied to the fields
    computes. *)
Ltac run :=
  unfold mbind, M_bind, mret, M_ret, this, emit, throw, assign, after_events
    in *;
  cbn [result self_after trace app] in *.

Lemma outcome_eta {A} (o : outcome A) :
  Outcome (result o) (self_after o) (trace o) = o.
Proof. by destruct o. Qed.

(** A computation that returns hands its value and fields to the
    continuation, whose events follow its own. *)
Lemma bind_normal {A B} (m : M A) (k : A -> M B) self a self' events :
  m self = Outcome (Normal a) self' events ->
  (m ≫= k) self = after_events events (k a self').
Proof. intros H. unfold mbind, M_bind. by rewrite H. Qed.

Lemma bind_pure {A B} (m : M A) (k : A -> M B) self a :
  m self = Outcome (Normal a) self [] -> (m ≫= k) self = k a self.
Proof.
  intros H. rewrite (bind_normal m k self a self []) by done.
  unfold after_events. cbn [app]. apply outcome_eta.
Qed.

Lemma bind_throw {A B} (m : M A) (k : A -> M B) self e self' events :
  m self = Outcome (Throw e) self' events ->
  (m ≫= k) self = Outcome (Throw e) self' events.
Proof. intros H. unfold mbind, M_bind. by rewrite H. Qed.

Lemma bind_this {B} (k : manager -> M B) self :
  (this ≫= k) self = k self self.
Proof. by apply bind_pure. Qed.

Lemma truthy_string_spec s : truthy_string s = true <-> s ≠ "".
Proof.
  unfold truthy_string. destruct (String.eqb_spec s ""); cbn; split;
    congruence.
Qed.

Import Routing.

(** [post] and [postToOrigin], by what becomes of the post. *)
Lemma post_outcome name value self :
  post name value self
  = Outcome (completes (posting_to self name)) self
      (posted (posting_to self name) value).
Proof.
  unfold post, posting_to. rewrite bind_this.
  destruct (plugins self !! name) as [p|]; [done|].
  by destruct (inherited name).
Qed.

Lemma postToOrigin_outcome from value self :
  postToOrigin from value self
  = Outcome (completes (posting_from self from)) self (sent self from value).
Proof.
  unfold postToOrigin, sent, posting_from. rewrite bind_this.
  destruct (origins self !! from) as [name|]; [|done].
  destruct (truthy_string name); [|done]. apply post_outcome.
Qed.

Lemma post_registered name value self p :
  plugins self !! name = Some p ->
  post name value self
  = Outcome (Normal tt) self [PostMessage name (content p) (origin p) value].
Proof. intros Hp. rewrite post_outcome. unfold posting_to. by rewrite Hp. Qed.

Lemma posting_from_delivers self from name p :
  posting_from self from = Delivers name p
  <-> origins self !! from = Some name /\ name ≠ ""
      /\ plugins self !! name = Some p.
Proof.
  unfold posting_from, posting_to. rewrite <- truthy_string_spec. split.
  - intros H. repeat case_match; by simplify_eq.
  - intros (-> & -> & ->). done.
Qed.

(** The callback of a request, whenever the endpoint calls it: on fields
    where the origin of the request maps to a registered plugin it posts
    the response there. *)
Lemma response_outcome from key type id error result self :
  response from key type id error result self
  = Outcome (completes (posting_from self from)) self
      (sent self from
         (JSON.stringify (response_object key type id error result))).
Proof. apply postToOrigin_outcome. Qed.

Lemma response_delivered from key type id error result self name p :
  origins self !! from = Some name -> name ≠ "" ->
  plugins self !! name = Some p ->
  response from key type id error result self
  = Outcome (Normal tt) self
      [PostMessage name (content p) (origin p)
         (JSON.stringify (response_object key type id error result))].
Proof.
  intros Ho Hn Hp. rewrite response_outcome. unfold sent.
  by rewrite (proj2 (posting_from_delivers self from name p)).
Qed.

(** A value with a [value] member that is an array is an object: every
    member of it can be read. *)
Lemma get_object d l name :
  get d "value" = Some (Array l) ->
  get d name = Some (default Undefined (get d name)).
Proof. by destruct d. Qed.

Lemma member_read d name self :
  is_Some (get d "value") ->
  member d name self
  = Outcome (Normal (default Undefined (get d name))) self [].
Proof. unfold member. intros [v Hv]. by destruct d. Qed.

Lemma callback_outcome from data error result self :
  is_Some (get data "value") ->
  callback from data error result self
  = Outcome (completes (posting_from self from)) self
      (sent self from (answer data error result)).
Proof.
  intros Hdata. unfold callback.
  rewrite (bind_pure _ _ _ _ (member_read data "key" self Hdata)).
  rewrite (bind_pure _ _ _ _ (member_read data "type" self Hdata)).
  rewrite (bind_pure _ _ _ _ (member_read data "id" self Hdata)).
  apply response_outcome.
Qed.

Lemma callback_unreadable from data error result self :
  get data "value" = None ->
  callback from data error result self = Outcome (Throw TypeError) self [].
Proof. by destruct data. Qed.

Lemma decode_request d id key type args :
  Envelope.decode d = Some (Envelope.Request id key type args) ->
  get d "value" = Some (Array args) /\ get d "key" = Some (Str key)
  /\ get d "type" = Some (Str type) /\ get d "id" = Some id.
Proof.
  destruct d as [| | | | |?|props| |]; try discriminate.
  cbn [Envelope.decode get].
  intros H. repeat case_match; simplify_eq; cbn.
  all: repeat split; try done.
  all: match goal with
       | H : Envelope.is_number (default Undefined ?o) = true |- _ =>
           destruct o; [done | discriminate]
       end.
Qed.

(** A loop whose rounds return and keep the fields returns, keeps the
    fields and emits what its rounds emit; one whose rounds throw ends at
    the first. *)
Lemma for_each_returns {A} (body : A -> M unit) (events : A -> list event)
    l self :
  (forall x, body x self = Outcome (Normal tt) self (events x)) ->
  for_each body l self = Outcome (Normal tt) self (flat_map events l).
Proof.
  intros Hbody. induction l as [|x l IH]; [done|].
  cbn [for_each flat_map].
  by rewrite (bind_normal _ _ _ _ _ _ (Hbody x)), IH.
Qed.

Lemma for_each_throws {A} (body : A -> M unit) e x l self :
  body x self = Outcome (Throw e) self [] ->
  for_each body (x :: l) self = Outcome (Throw e) self [].
Proof. intros Hbody. cbn [for_each]. by apply bind_throw. Qed.

Lemma flat_map_nil {A B} (l : list A) : flat_map (λ _, @nil B) l = [].
Proof. by induction l. Qed.

Lemma for_each_rounds {A} (body : A -> M unit) (w : posting)
    (message : A -> value) l self :
  (forall x, body x self = Outcome (completes w) self (posted w (message x))) ->
  for_each body l self
  = Outcome (rounds w l) self (flat_map (λ x, posted w (message x)) l).
Proof.
  intros Hbody. destruct w as [name p| |].
  - rewrite (for_each_returns body (λ x, posted (Delivers name p) (message x)))
      by done.
    by destruct l.
  - rewrite (for_each_returns body (λ x, posted Drops (message x))) by done.
    by destruct l.
  - cbn [posted]. rewrite flat_map_nil. destruct l as [|x l]; [done|].
    apply for_each_throws, Hbody.
Qed.

(** The call of a member of the plugin API. *)
Lemma apply_outcome key type c args cb self r events :
  for_each (λ '(error, result), cb error result) (calls_of c args) self
  = Outcome r self events ->
  apply key type c args cb self
  = Outcome (and_then r (finishes c args)) self (Apply key type args :: events).
Proof.
  intros Hloop. unfold apply.
  rewrite (bind_normal _ _ self tt self [Apply key type args]) by done.
  destruct r as [[]|e].
  - rewrite (bind_normal _ _ _ _ _ _ Hloop). unfold finishes.
    destruct (raised_by c args); unfold after_events;
      cbn [result self_after trace and_then app]; by rewrite app_nil_r.
  - by rewrite (bind_throw _ _ _ _ _ _ Hloop).
Qed.

(** The methods that only send leave the fields alone. *)

Lemma post_self name value self : self_after (post name value self) = self.
Proof. by rewrite post_outcome. Qed.

Lemma postToOrigin_self from value self :
  self_after (postToOrigin from value self) = self.
Proof. by rewrite postToOrigin_outcome. Qed.

(** *** Inbound dispatch *)

(** Enters the listener for an event whose type is ['message']. *)
Ltac enter Htype :=
  unfold onMessage; rewrite Htype;
  change (negb ("message" =? "message")%string) with false; cbv iota;
  rewrite bind_this.

Lemma string_of_some v s self :
  to_string v = Some s -> string_of v self = Outcome (Normal s) self [].
Proof. unfold string_of. by intros ->. Qed.

Lemma string_of_none v self :
  to_string v = None -> string_of v self = Outcome (Throw TypeError) self [].
Proof. unfold string_of. by intros ->. Qed.

Lemma dispatched_outcome pluginAPI from extension data l k t self :
  get data "value" = Some (Array l) ->
  match lookup_callee pluginAPI k t with
  | Some c => apply k t c (Str extension :: l) (callback from data)
  | None =>
      id ← member data "id";
      response from (default Undefined (get data "key"))
        (default Undefined (get data "type")) id
        (Str ("Endpoint " ++ k ++ "/" ++ t ++ " not present")) Null
  end self
  = dispatched pluginAPI self from extension data l k t.
Proof.
  intros Hvalue. assert (is_Some (get data "value")) as Hdata by by eexists.
  unfold dispatched. cbv zeta.
  destruct (lookup_callee pluginAPI k t) as [c|].
  - apply apply_outcome.
    rewrite (for_each_rounds _ (posting_from self from)
               (λ x, answer data x.1 x.2)).
    + f_equal. apply flat_map_ext. by intros [error result].
    + intros [error result]. by apply callback_outcome.
  - rewrite (bind_pure _ _ _ _ (member_read data "id" self Hdata)).
    apply response_outcome.
Qed.

(** The listener in full: what it returns or throws, the fields after it
    and its events, by the tests it makes. *)
Lemma onMessage_outcome pluginAPI event self :
  onMessage pluginAPI event self = listened pluginAPI event self.
Proof.
  unfold listened.
  destruct (String.eqb_spec (MessageEvent.type event) "message")
    as [Htype|Htype]; cycle 1.
  { unfold onMessage. apply String.eqb_neq in Htype. by rewrite Htype. }
  enter Htype.
  destruct (origins self !! MessageEvent.origin event) as [ext|] eqn:Ho;
    [|done].
  destruct (truthy_string ext) eqn:Hext; [|done]. cbn [negb].
  destruct (to_string (MessageEvent.data event)) as [text|] eqn:Htext;
    cycle 1.
  { by rewrite (bind_throw _ _ _ _ _ _ (string_of_none _ self Htext)). }
  rewrite (bind_pure _ _ _ _ (string_of_some _ _ self Htext)).
  destruct (JSON.parse_text text) as [data|] eqn:Hparse; [|done].
  rewrite (bind_pure _ _ self data) by done.
  destruct (get data "value") as [value|] eqn:Hvalue; cycle 1.
  { apply bind_throw. unfold member. by rewrite Hvalue. }
  assert (is_Some (get data "value")) as Hdata by by eexists.
  rewrite (bind_pure _ _ self value) by (unfold member; by rewrite Hvalue).
  destruct value as [| | | | |l| | |]; try done.
  rewrite (bind_pure _ _ self (Str ext :: l)) by done.
  rewrite (bind_pure _ _ _ _ (member_read data "key" self Hdata)).
  destruct (to_string (default Undefined (get data "key"))) as [k|] eqn:Hk;
    cycle 1.
  { by rewrite (bind_throw _ _ _ _ _ _ (string_of_none _ self Hk)). }
  rewrite (bind_pure _ _ _ _ (string_of_some _ _ self Hk)).
  rewrite (bind_pure _ _ _ _ (member_read data "type" self Hdata)).
  destruct (to_string (default Undefined (get data "type"))) as [t|] eqn:Ht;
    cycle 1.
  { by rewrite (bind_throw _ _ _ _ _ _ (string_of_none _ self Ht)). }
  rewrite (bind_pure _ _ _ _ (string_of_some _ _ self Ht)).
  by apply dispatched_outcome.
Qed.

Lemma dispatched_self pluginAPI self from extension data l k t :
  self_after (dispatched pluginAPI self from extension data l k t) = self.
Proof. unfold dispatched. cbv zeta. by destruct (lookup_callee _ _ _). Qed.

Lemma onMessage_self pluginAPI self event :
  self_after (onMessage pluginAPI event self) = self.
Proof.
  rewrite onMessage_outcome. unfold listened.
  repeat case_match; try done. apply dispatched_self.
Qed.

(** What the listener emits: calls on behalf of the title that the origin
    maps to, and posts of the kind that the origin has. *)
Lemma listened_events (P : event -> Prop) pluginAPI event self :
  (forall extension k t l,
     origins self !! MessageEvent.origin event = Some extension ->
     extension ≠ "" ->
     P (Apply k t (Str extension :: l))) ->
  (forall value,
     Forall P (sent self (MessageEvent.origin event) value)) ->
  Forall P (trace (onMessage pluginAPI event self)).
Proof.
  intros Hcall Hsent. rewrite onMessage_outcome. unfold listened.
  destruct (MessageEvent.type event =? "message")%string; [|by constructor].
  destruct (origins self !! MessageEvent.origin event) as [ext|] eqn:Ho;
    [|by constructor].
  destruct (truthy_string ext) eqn:Hext; [|by constructor].
  apply truthy_string_spec in Hext.
  repeat case_match; cbn [trace]; try by constructor.
  unfold dispatched. cbv zeta.
  destruct (lookup_callee _ _ _) as [c|]; cbn [trace]; [|apply Hsent].
  constructor; [by apply Hcall|].
  apply Forall_flat_map, Forall_forall. intros [error result] _. apply Hsent.
Qed.

Lemma parse_some x d :
  JSON.parse x = Some d
  <-> exists text, to_string x = Some text /\ JSON.parse_text text = Some d.
Proof.
  unfold JSON.parse. destruct (to_string x) as [text|]; cbn; split.
  - intros H. by exists text.
  - by intros (? & [= <-] & H).
  - done.
  - by intros (? & ? & _).
Qed.

Lemma lookup_endpoint_callee pluginAPI key type f :
  lookup_endpoint pluginAPI (Str key) (Str type) = Some f
  <-> lookup_callee pluginAPI key type = Some (Endpoint f).
Proof.
  unfold lookup_endpoint. cbn.
  destruct (lookup_callee pluginAPI key type) as [[g|calls raises]|];
    split; intros H; by simplify_eq.
Qed.

Section Dispatch.

Variable pluginAPI : PluginAPI.

(** C1. A message whose origin is not a key of [origins] sends nothing,
    calls no endpoint and leaves the fields as they were: the listener
    returns at its origin check. *)
Theorem unknown_origin_dropped self event :
  origins self !! MessageEvent.origin event = None ->
  onMessage pluginAPI event self = Outcome (Normal tt) self [].
Proof.
  intros Ho. rewrite onMessage_outcome. unfold listened. rewrite Ho.
  by destruct (MessageEvent.type event =? "message")%string.
Qed.

(** An origin registered under the empty title fails the same check: its
    messages are dropped as well. *)
Lemma empty_title_dropped self event :
  origins self !! MessageEvent.origin event = Some "" ->
  onMessage pluginAPI event self = Outcome (Normal tt) self [].
Proof.
  intros Ho. rewrite onMessage_outcome. unfold listened. rewrite Ho.
  by destruct (MessageEvent.type event =? "message")%string.
Qed.

(** A payload that is a request reaches the dispatch with the members of
    the request. *)
Lemma request_dispatched self event extension d id key type args :
  MessageEvent.type event = "message" ->
  origins self !! MessageEvent.origin event = Some extension ->
  extension ≠ "" ->
  JSON.parse (MessageEvent.data event) = Some d ->
  Envelope.decode d = Some (Envelope.Request id key type args) ->
  onMessage pluginAPI event self
  = dispatched pluginAPI self (MessageEvent.origin event) extension d args
      key type
  /\ forall error result,
       answer d error result
       = JSON.stringify
           (Object [("id", id); ("action", Str "response"); ("key", Str key);
                    ("type", Str type); ("error", error);
                    ("value", Array [result])]).
Proof.
  intros Htype Ho Hext Hparse Hdec.
  apply decode_request in Hdec as (Hvalue & Hkey & Htyp & Hid).
  apply parse_some in Hparse as (text & Htext & Hparse).
  apply truthy_string_spec in Hext. split.
  - rewrite onMessage_outcome. unfold listened.
    rewrite Htype, Ho, Hext, Htext, Hparse, Hvalue, Hkey, Htyp. done.
  - intros error result. unfold answer. by rewrite Hkey, Htyp, Hid.
Qed.

(** Whatever an endpoint passes to the callback before it returns, each
    call is answered by the response with the request's [key] and [type],
    the [id] that [JSON.parse] read, the error as given and the result
    alone in [value], on the frame of the plugin the origin resolves to. *)
Lemma request_answered self event extension p d id key type args f :
  MessageEvent.type event = "message" ->
  origins self !! MessageEvent.origin event = Some extension ->
  extension ≠ "" ->
  plugins self !! extension = Some p ->
  JSON.parse (MessageEvent.data event) = Some d ->
  Envelope.decode d = Some (Envelope.Request id key type args) ->
  lookup_endpoint pluginAPI (Str key) (Str type) = Some f ->
  onMessage pluginAPI event self
  = Outcome (Normal tt) self
      (Apply key type (Str extension :: args)
       :: responses extension (content p) (origin p) key type id
            (f (Str extension :: args))).
Proof.
  intros Htype Ho Hext Hp Hparse Hdec Hf.
  destruct (request_dispatched self event extension d id key type args)
    as [-> Hanswer]; try done.
  apply lookup_endpoint_callee in Hf.
  unfold dispatched. cbv zeta. rewrite Hf.
  rewrite (proj2 (posting_from_delivers self _ extension p)) by done.
  cbn [calls_of finishes raised_by]. f_equal.
  - by destruct (f (Str extension :: args)).
  - f_equal. unfold responses.
    induction (f (Str extension :: args)) as [|[error result] calls IH];
      [done|].
    cbn [flat_map fmap list_fmap]. rewrite IH. cbn [posted app].
    by rewrite Hanswer.
Qed.

(** The callback of a request, called after the listener returned, on
    fields where the origin of the request maps to a registered plugin. *)
Lemma request_answered_later self event extension p d id key type args
    error result :
  origins self !! MessageEvent.origin event = Some extension ->
  extension ≠ "" ->
  plugins self !! extension = Some p ->
  Envelope.decode d = Some (Envelope.Request id key type args) ->
  callback (MessageEvent.origin event) d error result self
  = Outcome (Normal tt) self
      [PostMessage extension (content p) (origin p)
         (JSON.stringify
            (Object [("id", id); ("action", Str "response"); ("key", Str key);
                     ("type", Str type); ("error", error);
                     ("value", Array [result])]))].
Proof.
  intros Ho Hext Hp Hdec.
  apply decode_request in Hdec as (Hvalue & Hkey & Htyp & Hid).
  rewrite callback_outcome by by eexists. unfold sent.
  rewrite (proj2 (posting_from_delivers self _ extension p)) by done.
  cbn [completes posted]. unfold answer. by rewrite Hkey, Htyp, Hid.
Qed.

(** C2, as the code has it. A request from an origin that maps to a
    registered plugin whose entry records that origin, for a (key, type)
    at which the plugin API has an endpoint: the endpoint is called once,
    on behalf of the plugin. When it calls the callback once before it
    returns, with no error, one message is posted; when it returns without
    a call and calls the callback once later, while the origin still maps
    to the plugin and the plugin's entry is the same, that call posts one
    message. Either way the message goes on the frame of the plugin, for
    the origin the request came from, and is the text of the object with
    the request's [key] and [type], the [id] as [JSON.parse] read it, the
    error passed ([null], or [undefined], which [JSON.stringify] leaves
    out of the text) and [value] holding the result alone. *)
Theorem request_answered_once self event extension p d id key type args f
    error result :
  MessageEvent.type event = "message" ->
  origins self !! MessageEvent.origin event = Some extension ->
  extension ≠ "" ->
  plugins self !! extension = Some p ->
  origin p = MessageEvent.origin event ->
  JSON.parse (MessageEvent.data event) = Some d ->
  Envelope.decode d = Some (Envelope.Request id key type args) ->
  lookup_endpoint pluginAPI (Str key) (Str type) = Some f ->
  error = Null \/ error = Undefined ->
  let called := Apply key type (Str extension :: args) in
  let answered :=
    PostMessage extension (content p) (MessageEvent.origin event)
      (JSON.stringify
         (Object [("id", id); ("action", Str "response"); ("key", Str key);
                  ("type", Str type); ("error", error);
                  ("value", Array [result])])) in
  (f (Str extension :: args) = [(error, result)] ->
   onMessage pluginAPI event self
   = Outcome (Normal tt) self [called; answered])
  /\ (f (Str extension :: args) = [] ->
      onMessage pluginAPI event self = Outcome (Normal tt) self [called]
      /\ forall self',
           origins self' !! MessageEvent.origin event = Some extension ->
           plugins self' !! extension = Some p ->
           callback (MessageEvent.origin event) d error result self'
           = Outcome (Normal tt) self' [answered])
  /\ truthy error = false.
Proof.
  intros Htype Ho Hext Hp Horigin Hparse Hdec Hf Herr. cbv zeta.
  rewrite (request_answered self event extension p d id key type args f)
    by done.
  rewrite <- Horigin. split; [by intros ->|]. split.
  - intros ->. split; [done|]. intros self' Ho' Hp'. rewrite Horigin in *.
    rewrite (request_answered_later self' event extension p d id key type
               args) by done.
    by rewrite Horigin.
  - by destruct Herr as [-> | ->].
Qed.

(** A request for a (key, type) the plugin API lacks: no endpoint is
    called and one response is posted, whose error is the text naming the
    missing endpoint. *)
Lemma absent_endpoint_answered self event extension p d id key type args :
  MessageEvent.type event = "message" ->
  origins self !! MessageEvent.origin event = Some extension ->
  extension ≠ "" ->
  plugins self !! extension = Some p ->
  JSON.parse (MessageEvent.data event) = Some d ->
  Envelope.decode d = Some (Envelope.Request id key type args) ->
  lookup_callee pluginAPI key type = None ->
  onMessage pluginAPI event self
  = Outcome (Normal tt) self
      [PostMessage extension (content p) (origin p)
         (JSON.stringify
            (Object [("id", id); ("action", Str "response"); ("key", Str key);
                     ("type", Str type);
                     ("error",
                      Str ("Endpoint " ++ key ++ "/" ++ type
                           ++ " not present"));
                     ("value", Array [Null])]))].
Proof.
  intros Htype Ho Hext Hp Hparse Hdec Hf.
  destruct (request_dispatched self event extension d id key type args)
    as [-> Hanswer]; try done.
  unfold dispatched. cbv zeta. rewrite Hf.
  rewrite (proj2 (posting_from_delivers self _ extension p)) by done.
  cbn [completes posted]. by rewrite Hanswer.
Qed.

End Dispatch.

Lemma unknown_origin_dropped_witness :
  origins Session.two !! "https://evil" = None
  /\ onMessage (Session.api Session.compiled)
       (Session.message "https://evil" Session.get_config)
       Session.two
     = Outcome (Normal tt) Session.two [].
Proof.
  split; [vm_compute; reflexivity|].
  apply unknown_origin_dropped. vm_compute. reflexivity.
Defined.

(** The example of the protocol: plugin A asks for a configuration file
    and gets ["hello"]; nothing goes to B. *)
Lemma request_answered_once_witness :
  onMessage (Session.api Session.compiled)
    (Session.message "https://a" Session.get_config)
    Session.two
  = Outcome (Normal tt) Session.two
      [Apply "config" "getConfig" [Str "A"; Str "f.txt"];
       PostMessage "A" 2 "https://a"
         (JSON.stringify
            (Object [("id", Number 1 0); ("action", Str "response");
                     ("key", Str "config"); ("type", Str "getConfig");
                     ("error", Null); ("value", Array [Str "hello"])]))].
Proof.
  refine (proj1 (request_answered_once (Session.api Session.compiled)
    Session.two (Session.message "https://a" Session.get_config) "A"
    (Plugin 2 1 "https://a")
    (Object [("id", Number 1 0); ("action", Str "request");
             ("key", Str "config"); ("type", Str "getConfig");
             ("value", Array [Str "f.txt"])])
    (Number 1 0) "config" "getConfig" [Str "f.txt"] Session.getConfig
    Null (Str "hello") _ _ _ _ _ _ _ _ _) _).
  all: try (vm_compute; reflexivity).
  - discriminate.
  - left. reflexivity.
Defined.

(** What the claim does not hold for. A request whose [id] is no double
    is answered under the double next to it; the callback of a request,
    called once with no error after the plugin was unregistered, posts
    nothing; and a request from an origin registered under the empty title
    calls no endpoint and is not answered. *)
Lemma request_id_not_echoed :
  trace (onMessage (Session.api Session.compiled)
           (Session.message "https://a" Cases.ask_big) Session.two)
  = [Apply "config" "getConfig" [Str "A"; Str "f.txt"];
     PostMessage "A" 2 "https://a"
       (Str (JSON.text
          "{'id':9007199254740992,'action':'response','key':'config','type':'getConfig','error':null,'value':['hello']}"))]
  /\ (let later := self_after (unregister Session.A Session.two) in
      callback "https://a"
        (Object [("id", Number 1 0); ("action", Str "request");
                 ("key", Str "config"); ("type", Str "getConfig");
                 ("value", Array [Str "f.txt"])])
        Null (Str "hello") later
      = Outcome (Normal tt) later [])
  /\ (let unnamed :=
        self_after (register (Descriptor "" "https://e") 5 6 Session.two) in
      origins unnamed !! "https://e" = Some ""
      /\ plugins unnamed !! "" = Some (Plugin 6 5 "https://e")
      /\ onMessage (Session.api Session.compiled)
           (Session.message "https://e" Session.get_config) unnamed
         = Outcome (Normal tt) unnamed []).
Proof. repeat split; vm_compute; reflexivity. Qed.

Example response_text :
  JSON.stringify
    (response_object (Str "config") (Str "getConfig") (Number 1 0) Null
       (Str "hello"))
  = Str (JSON.text
      "{'id':1,'action':'response','key':'config','type':'getConfig','error':null,'value':['hello']}")
  /\ JSON.stringify
       (response_object (Str "config") (Str "getConfig") (Number 1 0)
          Undefined Undefined)
     = Str (JSON.text
         "{'id':1,'action':'response','key':'config','type':'getConfig','value':[null]}")
  /\ Envelope.of_payload
       (JSON.stringify
          (response_object (Str "config") (Str "getConfig") (Number 1 0) Null
             (Str "hello")))
     = Some (Envelope.Response (Number 1 0) "config" "getConfig" Null
               [Str "hello"]).
Proof. repeat split; vm_compute; reflexivity. Qed.

(** C3. At a request of plugin A for the endpoint nope/x, which the plugin
    API lacks, no endpoint is called and one response goes to A; its
    [error] is the bare text, not an object with a [code]. *)
Theorem absent_endpoint_error_is_text :
  let o :=
    onMessage (Session.api Session.compiled)
      (Session.message "https://a" Session.get_nothing)
      Session.two in
  o = Outcome (Normal tt) Session.two
        [PostMessage "A" 2 "https://a"
           (Str (JSON.text
              "{'id':7,'action':'response','key':'nope','type':'x','error':'Endpoint nope/x not present','value':[null]}"))]
  /\ (JSON.parse
        (Str (JSON.text
           "{'id':7,'action':'response','key':'nope','type':'x','error':'Endpoint nope/x not present','value':[null]}"))
      ≫= λ d, get d "error")
     = Some (Str "Endpoint nope/x not present").
Proof. split; vm_compute; reflexivity. Qed.

(** *** The registry *)

Lemma register_fields desc modal content self :
  register desc modal content self
  = Outcome (Normal tt)
      (Manager (<[title desc := Plugin content modal (url desc)]> (plugins self))
         (<[url desc := title desc]> (origins self)) (inFocus self))
      [].
Proof. reflexivity. Qed.

Lemma unregister_fields desc self :
  unregister desc self
  = Outcome (Normal tt)
      (Manager (delete (title desc) (plugins self))
         (delete (url desc) (origins self)) (inFocus self))
      [].
Proof. reflexivity. Qed.

Lemma fits_spec self desc :
  Registry.fits self desc = true
  <-> (forall p, plugins self !! title desc = Some p -> origin p = url desc)
      /\ (forall t, origins self !! url desc = Some t -> t = title desc).
Proof.
  unfold Registry.fits. rewrite andb_true_iff.
  destruct (plugins self !! title desc) as [p|],
    (origins self !! url desc) as [t|];
    rewrite ?String.eqb_eq; split; try done.
  - intros [H1 H2]. split; intros ? [= <-]; done.
  - intros [H1 H2]. split; [by apply H1 | by apply H2].
  - intros [H1 _]. split; [|done]. by intros ? [= <-].
  - intros [H1 _]. split; [by apply H1 | done].
  - intros [_ H2]. split; [done|]. by intros ? [= <-].
  - intros [_ H2]. split; [done | by apply H2].
Qed.

Section Fitting.

Import Registry.

(** On fields whose two maps agree, a call leaves them agreeing exactly
    when its descriptor fits. *)
Lemma fits_keeps c self :
  consistent self ->
  fits self (descriptor_of c) = true ->
  consistent (self_after (perform c self)).
Proof.
  intros Hcons [Hplugin Horigin]%fits_spec.
  destruct c as [[t u] modal content | [t u]];
    cbn [descriptor_of title url] in *; cbn [perform].
  - rewrite register_fields. cbn [self_after].
    intros u' t'. cbn [plugins origins title url].
    destruct (decide (u = u')) as [<-|Hu].
    + rewrite lookup_insert_eq. split.
      * intros [= <-]. eexists. by rewrite lookup_insert_eq.
      * intros (p & Hp & Ho).
        destruct (decide (t = t')) as [<-|Ht]; [done|].
        rewrite lookup_insert_ne in Hp by done.
        f_equal. symmetry. apply Horigin, Hcons. eauto.
    + rewrite lookup_insert_ne by done. split.
      * intros Ho. destruct (decide (t = t')) as [<-|Ht].
        -- apply Hcons in Ho as (p & Hp & Ho). destruct Hu.
           rewrite <- Ho. symmetry. by apply Hplugin.
        -- rewrite lookup_insert_ne by done. by apply Hcons.
      * intros (p & Hp & Ho). destruct (decide (t = t')) as [<-|Ht].
        -- rewrite lookup_insert_eq in Hp. by simplify_eq.
        -- rewrite lookup_insert_ne in Hp by done. apply Hcons. eauto.
  - rewrite unregister_fields. cbn [self_after].
    intros u' t'. cbn [plugins origins title url].
    destruct (decide (u = u')) as [<-|Hu].
    + rewrite lookup_delete_eq. split; [done|].
      intros (p & Hp & Ho). destruct (decide (t = t')) as [<-|Ht].
      * by rewrite lookup_delete_eq in Hp.
      * rewrite lookup_delete_ne in Hp by done.
        destruct Ht. symmetry. apply Horigin, Hcons. eauto.
    + rewrite lookup_delete_ne by done. split.
      * intros Ho. destruct (decide (t = t')) as [<-|Ht].
        -- apply Hcons in Ho as (p & Hp & Ho). destruct Hu.
           rewrite <- Ho. symmetry. by apply Hplugin.
        -- rewrite lookup_delete_ne by done. by apply Hcons.
      * intros (p & Hp & Ho). destruct (decide (t = t')) as [<-|Ht].
        -- by rewrite lookup_delete_eq in Hp.
        -- rewrite lookup_delete_ne in Hp by done. apply Hcons. eauto.
Qed.

Lemma kept_fits c self :
  consistent self ->
  consistent (self_after (perform c self)) ->
  fits self (descriptor_of c) = true.
Proof.
  intros Hcons Hafter. apply fits_spec.
  destruct c as [[t u] modal content | [t u]];
    cbn [descriptor_of title url] in *; cbn [perform] in Hafter.
  - rewrite register_fields in Hafter. cbn [self_after] in Hafter. split.
    + intros p Hp. destruct (decide (origin p = u)) as [|Hne]; [done|].
      assert (origins self !! origin p = Some t) as Ho
        by (apply Hcons; eauto).
      destruct (Hafter (origin p) t) as [(p' & Hp' & Ho') _].
      { cbn. by rewrite lookup_insert_ne. }
      cbn in Hp'. rewrite lookup_insert_eq in Hp'. by simplify_eq.
    + intros t0 Ho. destruct (decide (t0 = t)) as [|Hne]; [done|].
      apply Hcons in Ho as (p & Hp & Ho).
      destruct (Hafter u t0) as [_ H]. cbn in H.
      rewrite lookup_insert_eq, lookup_insert_ne in H by done.
      assert (Some t = Some t0) as [= ->] by (apply H; eauto). done.
  - rewrite unregister_fields in Hafter. cbn [self_after] in Hafter. split.
    + intros p Hp. destruct (decide (origin p = u)) as [|Hne]; [done|].
      assert (origins self !! origin p = Some t) as Ho
        by (apply Hcons; eauto).
      destruct (Hafter (origin p) t) as [(p' & Hp' & Ho') _].
      { cbn. by rewrite lookup_delete_ne. }
      cbn in Hp'. by rewrite lookup_delete_eq in Hp'.
    + intros t0 Ho. destruct (decide (t0 = t)) as [|Hne]; [done|].
      apply Hcons in Ho as (p & Hp & Ho).
      destruct (Hafter u t0) as [_ H]. cbn in H.
      rewrite lookup_delete_eq, lookup_delete_ne in H by done.
      assert (@None string = Some t0) as [=] by (apply H; eauto).
Qed.

Lemma fitting_keeps calls self :
  consistent self ->
  (forall n, consistent (after_on self (take n calls)))
  <-> fitting self calls = true.
Proof.
  revert self. induction calls as [|c calls IH]; intros self Hcons.
  - split; [done|]. intros _ n. by rewrite take_nil.
  - cbn [fitting]. rewrite andb_true_iff. split.
    + intros Hall. pose proof (Hall 1) as Hone. cbn in Hone.
      split; [by apply kept_fits|].
      apply IH; [done|]. intros n. apply (Hall (S n)).
    + intros [Hfits Hrest] [|n]; [done|]. cbn [take after_on fold_left].
      apply IH; [by apply fits_keeps | done].
Qed.

End Fitting.

Lemma constructed_consistent : Registry.consistent constructed.
Proof.
  intros u t. cbn. rewrite lookup_empty. split; [done|].
  intros (p & Hp & _). by rewrite lookup_empty in Hp.
Qed.

(** The fields a call leaves. *)
Lemma call_fields c self :
  self_after (Registry.perform c self)
  = match c with
    | Registry.Register desc modal content =>
        Manager
          (<[title desc := Plugin content modal (url desc)]> (plugins self))
          (<[url desc := title desc]> (origins self)) (inFocus self)
    | Registry.Unregister desc =>
        Manager (delete (title desc) (plugins self))
          (delete (url desc) (origins self)) (inFocus self)
    end.
Proof. by destruct c. Qed.




(** Calls for other urls leave the binding of an origin alone. *)
Lemma other_urls_keep_origin calls self u t :
  Forall (λ c, url (Registry.descriptor_of c) ≠ u) calls ->
  origins self !! u = Some t ->
  origins (Registry.after_on self calls) !! u = Some t.
Proof.
  intros Hcalls. revert self.
  induction Hcalls as [|c calls Hc _ IH]; intros self Ho; [done|].
  cbn [Registry.after_on fold_left]. apply IH. rewrite call_fields.
  destruct c as [desc modal content|desc]; cbn in *.
  - by rewrite lookup_insert_ne.
  - by rewrite lookup_delete_ne.
Qed.

(** C5, as the code has it. Registering title [T] again for another origin
    binds the new origin and rewrites [T]'s plugin, and leaves the old
    origin bound to [T], through any later [register] and [unregister]
    calls for other urls: a request arriving from the old origin is still
    taken as [T]'s, its endpoint is called on [T]'s behalf, and the response
    is posted on the newly registered frame for the new origin. *)
Theorem old_origin_still_resolves pluginAPI self T U1 U2 modal content :
  origins self !! U1 = Some T ->
  U2 ≠ U1 ->
  let self' :=
    self_after (register (Descriptor T U2) modal content self) in
  origins self' !! U1 = Some T
  /\ origins self' !! U2 = Some T
  /\ plugins self' !! T = Some (Plugin content modal U2)
  /\ (forall calls,
        Forall (λ c, url (Registry.descriptor_of c) ≠ U1) calls ->
        origins (Registry.after_on self' calls) !! U1 = Some T)
  /\ forall data d id key type args f error result,
       T ≠ "" ->
       JSON.parse data = Some d ->
       Envelope.decode d = Some (Envelope.Request id key type args) ->
       lookup_endpoint pluginAPI (Str key) (Str type) = Some f ->
       f (Str T :: args) = [(error, result)] ->
       onMessage pluginAPI (MessageEvent.Make "message" U1 data) self'
       = Outcome (Normal tt) self'
           [Apply key type (Str T :: args);
            PostMessage T content U2
              (JSON.stringify
                 (Object [("id", id); ("action", Str "response");
                          ("key", Str key); ("type", Str type);
                          ("error", error); ("value", Array [result])]))].
Proof.
  intros Ho Hne self'. subst self'. rewrite register_fields.
  cbn [self_after origins plugins title url].
  assert (<[U2:=T]> (origins self) !! U1 = Some T) as Hold
    by by rewrite lookup_insert_ne.
  split; [done|]. split; [by rewrite lookup_insert_eq|].
  split; [by rewrite lookup_insert_eq|]. split.
  - intros calls Hcalls. by apply other_urls_keep_origin.
  - intros data d id key type args f error result HT Hparse Hdec Hf Hres.
    rewrite (request_answered pluginAPI _
               (MessageEvent.Make "message" U1 data) T
               (Plugin content modal U2) d id key type args f); try done.
    + by rewrite Hres.
    + cbn. by rewrite lookup_insert_eq.
Qed.

Lemma old_origin_still_resolves_witness :
  let self' :=
    self_after (register (Descriptor "A" "https://a2") 5 6 Session.two) in
  origins self' !! "https://a" = Some "A"
  /\ origins
       (Registry.after_on self'
          [Registry.Unregister (Descriptor "A" "https://a2");
           Registry.Register Cases.C_at_b 7 8]) !! "https://a"
     = Some "A"
  /\ onMessage (Session.api Session.compiled)
       (Session.message "https://a" Session.get_config)
       self'
     = Outcome (Normal tt) self'
         [Apply "config" "getConfig" [Str "A"; Str "f.txt"];
          PostMessage "A" 6 "https://a2"
            (JSON.stringify
               (Object [("id", Number 1 0); ("action", Str "response");
                        ("key", Str "config"); ("type", Str "getConfig");
                        ("error", Null); ("value", Array [Str "hello"])]))].
Proof.
  pose proof (old_origin_still_resolves (Session.api Session.compiled)
                Session.two "A" "https://a" "https://a2" 5 6) as H.
  destruct H as (Hold & _ & _ & Hlater & Hmsg);
    [vm_compute; reflexivity | discriminate |].
  split; [exact Hold|]. split.
  - apply Hlater. repeat constructor; discriminate.
  - eapply Hmsg; [discriminate|vm_compute; reflexivity..].
Defined.

(** After title A is registered again for https://a2, the origin
    https://a still maps to A, and a request from it is answered rather
    than dropped. *)
Lemma old_origin_not_dropped :
  let self' :=
    self_after (register (Descriptor "A" "https://a2") 5 6 Session.two) in
  origins Session.two !! "https://a" = Some "A"
  /\ origins self' !! "https://a" = Some "A"
  /\ trace (onMessage (Session.api Session.compiled)
              (Session.message "https://a" Session.get_config)
              self')
     = [Apply "config" "getConfig" [Str "A"; Str "f.txt"];
        PostMessage "A" 6 "https://a2"
          (Str (JSON.text
             "{'id':1,'action':'response','key':'config','type':'getConfig','error':null,'value':['hello']}"))].
Proof. repeat split; vm_compute; reflexivity. Qed.

(** An origin stops resolving to its title when a call for that url
    comes: an [unregister], or a [register] of another title. *)
Example old_origin_taken_over :
  let self' :=
    self_after (register (Descriptor "A" "https://a2") 5 6 Session.two) in
  origins (self_after (register (Descriptor "C" "https://a") 7 8 self'))
    !! "https://a" = Some "C"
  /\ origins (self_after (unregister (Descriptor "Z" "https://a") self'))
       !! "https://a" = None.
Proof. split; vm_compute; reflexivity. Qed.



(** *** The focus handler *)

Section Focus.

Variable pluginAPI : PluginAPI.

(** The first half of the handler: [unfocus] for the plugin in focus, when
    the tab is another one. *)
Lemma unfocus_sent self tabName :
  match inFocus self with
  | Some focused =>
      if truthy_string focused && negb (String.eqb focused tabName)
      then post focused unfocus
      else mret tt
  | None => mret tt
  end self
  = Outcome
      (if unfocus_raises self tabName then Throw TypeError else Normal tt)
      self (unfocus_events self tabName).
Proof.
  unfold unfocus_raises, unfocus_events.
  destruct (inFocus self) as [focused|]; [|done].
  destruct (truthy_string focused && negb (focused =? tabName)%string);
    [|done].
  rewrite post_outcome. unfold posting_to.
  destruct (plugins self !! focused) as [q|] eqn:Hq; [done|].
  cbn. by destruct (inherited focused).
Qed.

(** What the callback of the focus handler posts, the tab being a
    registered plugin. *)
Lemma data_posts_sent tabName p calls self :
  plugins self !! tabName = Some p ->
  for_each
    (λ '(error, data),
       if negb (truthy error) then mret tt
       else post tabName (compilationData data))
    calls self
  = Outcome (Normal tt) self (data_posts tabName p calls).
Proof.
  intros Hp. unfold data_posts. apply for_each_returns.
  intros [error data]. destruct (truthy error); [|done].
  by apply post_registered.
Qed.

(** The handler in full, by what is in focus, what the tab names and what
    the plugin API has for the compiler. *)
Lemma tabChanged_outcome self tabName :
  tabChanged pluginAPI tabName self
  = if unfocus_raises self tabName then Outcome (Throw TypeError) self []
    else
      match plugins self !! tabName with
      | Some p =>
          match lookup_callee pluginAPI "compiler" "getCompilationResult" with
          | Some c =>
              Outcome (finishes c [Str tabName])
                (Manager (plugins self) (origins self) (Some tabName))
                (unfocus_events self tabName
                 ++ PostMessage tabName (content p) (origin p) focus
                 :: Apply "compiler" "getCompilationResult" [Str tabName]
                 :: data_posts tabName p (calls_of c [Str tabName]))
          | None =>
              Outcome (Throw TypeError)
                (Manager (plugins self) (origins self) (Some tabName))
                (unfocus_events self tabName
                 ++ [PostMessage tabName (content p) (origin p) focus])
          end
      | None => Outcome (Normal tt) self (unfocus_events self tabName)
      end.
Proof.
  unfold tabChanged. rewrite bind_this.
  pose proof (unfocus_sent self tabName) as Hunfocus.
  destruct (unfocus_raises self tabName) eqn:Hraises.
  { rewrite (bind_throw _ _ _ _ _ _ Hunfocus). f_equal.
    unfold unfocus_raises, unfocus_events in *.
    destruct (inFocus self) as [focused|]; [|done].
    destruct (truthy_string focused && negb (focused =? tabName)%string);
      [|done].
    cbn in Hraises. apply andb_prop in Hraises as [Hnone _].
    apply bool_decide_eq_true in Hnone. by rewrite Hnone. }
  rewrite (bind_normal _ _ _ _ _ _ Hunfocus), bind_this.
  destruct (plugins self !! tabName) as [p|] eqn:Hp; cycle 1.
  { unfold after_events. cbn. by rewrite app_nil_r. }
  rewrite (bind_normal _ _ _ _ _ _ (post_registered _ _ _ _ Hp)).
  rewrite (bind_normal _ _ self tt
             (Manager (plugins self) (origins self) (Some tabName)) [])
    by done.
  destruct (lookup_callee _ _ _) as [c|]; [|done].
  erewrite apply_outcome; [|by apply (data_posts_sent tabName p)].
  unfold after_events. by cbn [result self_after trace and_then app].
Qed.

(** A tab that names a registered plugin, with nothing to throw at the
    [unfocus] and an endpoint for the compiler: the plugin in focus before,
    when it is another one and still registered, is told [unfocus]; the
    tab's plugin is told [focus] and becomes [inFocus]; then the
    compilation result is asked for. *)
Lemma tabChanged_registered self tabName p getCompilationResult :
  unfocus_raises self tabName = false ->
  plugins self !! tabName = Some p ->
  lookup_endpoint pluginAPI (Str "compiler") (Str "getCompilationResult")
  = Some getCompilationResult ->
  tabChanged pluginAPI tabName self
  = Outcome (Normal tt)
      (Manager (plugins self) (origins self) (Some tabName))
      (unfocus_events self tabName
       ++ PostMessage tabName (content p) (origin p) focus
       :: Apply "compiler" "getCompilationResult" [Str tabName]
       :: data_posts tabName p (getCompilationResult [Str tabName])).
Proof.
  intros Hraises Hp Hg%lookup_endpoint_callee.
  by rewrite tabChanged_outcome, Hraises, Hp, Hg.
Qed.

(** C8, as the code has it. A tab change to the registered plugin that is
    in focus already sends no [unfocus] and leaves the fields as they are,
    and it is not silent: the plugin is told [focus] again, the compilation
    result is asked for again, and whatever follows is [compilationData]
    for that plugin. *)
Theorem refocus_sends_focus_again self T p getCompilationResult :
  inFocus self = Some T ->
  plugins self !! T = Some p ->
  lookup_endpoint pluginAPI (Str "compiler") (Str "getCompilationResult")
  = Some getCompilationResult ->
  exists rest,
    tabChanged pluginAPI T self
    = Outcome (Normal tt) self
        (PostMessage T (content p) (origin p) focus
         :: Apply "compiler" "getCompilationResult" [Str T] :: rest)
    /\ Forall
         (λ ev, exists data,
            ev = PostMessage T (content p) (origin p) (compilationData data))
         rest.
Proof.
  intros Hfocus Hp Hg.
  exists (data_posts T p (getCompilationResult [Str T])). split.
  - rewrite (tabChanged_registered self T p getCompilationResult);
      try done.
    + unfold unfocus_events.
      rewrite Hfocus, String.eqb_refl, andb_false_r. cbn [app].
      destruct self as [ps os f]. cbn in *. by subst f.
    + unfold unfocus_raises.
      by rewrite Hfocus, String.eqb_refl, andb_false_r.
  - unfold data_posts. apply Forall_flat_map, Forall_forall.
    intros [error data] _. destruct (truthy error); [|constructor].
    repeat constructor. by exists data.
Qed.

End Focus.

Lemma refocus_sends_focus_again_witness :
  let focused :=
    self_after (tabChanged (Session.api Session.compiled) "A" Session.two) in
  exists rest,
    tabChanged (Session.api Session.compiled) "A" focused
    = Outcome (Normal tt) focused
        (PostMessage "A" 2 "https://a" focus
         :: Apply "compiler" "getCompilationResult" [Str "A"] :: rest)
    /\ Forall
         (λ ev, exists data,
            ev = PostMessage "A" 2 "https://a" (compilationData data))
         rest.
Proof.
  apply (refocus_sends_focus_again (Session.api Session.compiled) _ "A"
           (Plugin 2 1 "https://a") Session.compiled);
    vm_compute; reflexivity.
Defined.

(** With A registered and in focus, a tab change to A is no no-op: A is
    sent [focus] once more and the compiler endpoint is called. *)
Lemma refocus_is_not_silent :
  let focused :=
    self_after (tabChanged (Session.api Session.compiled) "A" Session.two) in
  plugins focused !! "A" = Some (Plugin 2 1 "https://a")
  /\ inFocus focused = Some "A"
  /\ trace (tabChanged (Session.api Session.compiled) "A" focused)
     = [PostMessage "A" 2 "https://a" focus;
        Apply "compiler" "getCompilationResult" [Str "A"]].
Proof. repeat split; vm_compute; reflexivity. Qed.

(** C7. From A in focus, a tab change to B sends [unfocus] to A, then
    [focus] to B, and calls the compiler endpoint. When the endpoint has no
    compilation result and reports an error, B is sent [compilationData]
    (holding [null]); when it has one and reports no error, B is sent
    none: the callback returns on [!error]. *)
Theorem compilation_data_sent_on_error_only :
  let on_A api := self_after (tabChanged api "A" Session.two) in
  trace (tabChanged (Session.api Session.not_compiled) "B"
           (on_A (Session.api Session.not_compiled)))
  = [PostMessage "A" 2 "https://a" unfocus;
     PostMessage "B" 4 "https://b" focus;
     Apply "compiler" "getCompilationResult" [Str "B"];
     PostMessage "B" 4 "https://b" (compilationData Undefined)]
  /\ compilationData Undefined
     = Str (JSON.text
         "{'action':'notification','key':'compiler','type':'compilationData','value':[null]}")
  /\ trace (tabChanged (Session.api Session.compiled) "B"
              (on_A (Session.api Session.compiled)))
     = [PostMessage "A" 2 "https://a" unfocus;
        PostMessage "B" 4 "https://b" focus;
        Apply "compiler" "getCompilationResult" [Str "B"]].
Proof. repeat split; vm_compute; reflexivity. Qed.

(** After the plugin in focus is unregistered, a tab change to another
    plugin sends no [unfocus]: the [post] to the removed title is dropped. *)
Example unfocus_of_removed_plugin_dropped :
  let self :=
    self_after
      ((tabChanged (Session.api Session.compiled) "A" ;; unregister Session.A)
         Session.two) in
  inFocus self = Some "A"
  /\ trace (tabChanged (Session.api Session.compiled) "B" self)
     = [PostMessage "B" 4 "https://b" focus;
        Apply "compiler" "getCompilationResult" [Str "B"]].
Proof. split; vm_compute; reflexivity. Qed.

(** *** Broadcast *)

Lemma posts_to_registered value (entries : list (string * plugin)) self :
  Forall (λ entry, plugins self !! entry.1 = Some entry.2) entries ->
  for_each (λ plugin, post plugin value) entries.*1 self
  = Outcome (Normal tt) self (delivery value <$> entries).
Proof.
  induction 1 as [|[name p] entries Hp _ IH]; [done|].
  cbn [fmap list_fmap for_each fst]. cbn in Hp.
  rewrite (bind_normal _ _ _ _ _ _ (post_registered _ value _ _ Hp)).
  by rewrite IH.
Qed.

Lemma broadcast_deliveries value self :
  broadcast value self
  = Outcome (Normal tt) self (delivery value <$> map_to_list (plugins self)).
Proof.
  unfold broadcast. rewrite bind_this. apply posts_to_registered.
  apply Forall_forall. intros [name p] Hin. by apply elem_of_map_to_list.
Qed.


Example broadcast_to_two :
  trace (currentFileChanged (Str "browser/a.sol") Session.two)
  = [PostMessage "A" 2 "https://a"
       (Str (JSON.text
          "{'action':'notification','key':'editor','type':'currentFileChanged','value':['browser/a.sol']}"));
     PostMessage "B" 4 "https://b"
       (Str (JSON.text
          "{'action':'notification','key':'editor','type':'currentFileChanged','value':['browser/a.sol']}"))].
Proof. vm_compute. reflexivity. Qed.

(** *** Payloads that are no envelope *)

(** C6, as the code has it. From the origin of a plugin, a payload that is
    no JSON text, or whose [value] member is no array, is answered by no
    message and changes no field, and the listener does not return: it
    throws, a TypeError when the payload has no conversion to a string, a
    SyntaxError from [JSON.parse] when the string is no JSON text, a
    TypeError from [data.value.unshift] otherwise. The fields being as
    before, the next message is handled as if this one had not come. *)
Theorem unparsed_payload_throws pluginAPI self event extension :
  MessageEvent.type event = "message" ->
  origins self !! MessageEvent.origin event = Some extension ->
  extension ≠ "" ->
  (forall d l,
     JSON.parse (MessageEvent.data event) = Some d ->
     get d "value" ≠ Some (Array l)) ->
  onMessage pluginAPI event self
  = Outcome
      (Throw match to_string (MessageEvent.data event) with
             | Some text =>
                 match JSON.parse_text text with
                 | Some _ => TypeError
                 | None => SyntaxError
                 end
             | None => TypeError
             end)
      self []
  /\ forall next,
       onMessage pluginAPI next
         (self_after (onMessage pluginAPI event self))
       = onMessage pluginAPI next self.
Proof.
  intros Htype Ho Hext Hbad.
  split; [|intros next; by rewrite onMessage_self].
  apply truthy_string_spec in Hext.
  rewrite onMessage_outcome. unfold listened. rewrite Htype, Ho, Hext.
  cbn [String.eqb Ascii.eqb Bool.eqb].
  destruct (to_string (MessageEvent.data event)) as [text|] eqn:Htext;
    [|done].
  destruct (JSON.parse_text text) as [d|] eqn:Hparse; [|done].
  assert (JSON.parse (MessageEvent.data event) = Some d) as Hd
    by (apply parse_some; eauto).
  specialize (Hbad d).
  destruct (get d "value") as [[| | | | |l| | |]|]; try done.
  by destruct (Hbad l).
Qed.

Lemma unparsed_payload_throws_witness :
  onMessage (Session.api Session.compiled)
    (Session.message "https://a" "{'id':1,'action':'request'") Session.two
  = Outcome (Throw SyntaxError) Session.two []
  /\ onMessage (Session.api Session.compiled)
       (Session.message "https://a" "{'id':1,'value':'f.txt'}") Session.two
     = Outcome (Throw TypeError) Session.two [].
Proof.
  split.
  - refine (proj1 (unparsed_payload_throws (Session.api Session.compiled)
                     Session.two
                     (Session.message "https://a" "{'id':1,'action':'request'")
                     "A" _ _ _ _)).
    + reflexivity.
    + vm_compute. reflexivity.
    + discriminate.
    + intros d l Hparse. vm_compute in Hparse. discriminate Hparse.
  - refine (proj1 (unparsed_payload_throws (Session.api Session.compiled)
                     Session.two
                     (Session.message "https://a" "{'id':1,'value':'f.txt'}")
                     "A" _ _ _ _)).
    + reflexivity.
    + vm_compute. reflexivity.
    + discriminate.
    + intros d l Hparse. vm_compute in Hparse. injection Hparse as <-.
      discriminate.
Defined.

(** Two payloads from plugin A that are no envelope. The text that stops
    short makes the listener throw; the object with nothing but an empty
    [value] is dispatched and answered. *)
Lemma malformed_payload_not_dropped :
  origins Session.two !! "https://a" = Some "A"
  /\ Envelope.of_payload (Str "{") = None
  /\ onMessage (Session.api Session.compiled)
       (Session.message "https://a" "{") Session.two
     = Outcome (Throw SyntaxError) Session.two []
  /\ Envelope.of_payload (Str (JSON.text "{'value':[]}")) = None
  /\ onMessage (Session.api Session.compiled)
       (Session.message "https://a" "{'value':[]}") Session.two
     = Outcome (Normal tt) Session.two
         [PostMessage "A" 2 "https://a"
            (Str (JSON.text
               "{'action':'response','error':'Endpoint undefined/undefined not present','value':[null]}"))].
Proof. repeat split; vm_compute; reflexivity. Qed.

(** ** More of the listener *)

(** The conversions and the members that are no endpoint: a request whose
    [key] has a [toString] member throws before anything is sent, and one
    for [Function] calls it on behalf of the plugin, which throws. *)
Example listener_throws :
  onMessage Cases.api (Session.message "https://a" Cases.ask_object)
    Session.two
  = Outcome (Throw TypeError) Session.two []
  /\ onMessage Cases.api (Session.message "https://a" Cases.ask_function)
       Session.two
     = Outcome (Throw SyntaxError) Session.two
         [Apply "constructor" "constructor" [Str "A"]]
  /\ onMessage Cases.api
       (MessageEvent.Make "message" "https://a"
          (Object [("toString", Str "{}")]))
       Session.two
     = Outcome (Throw TypeError) Session.two [].
Proof. repeat split; vm_compute; reflexivity. Qed.


Lemma sent_to_sender self from value :
  Forall (to_sender self from) (sent self from value).
Proof.
  unfold sent. destruct (posting_from self from) as [name p| |] eqn:Hw;
    [|done..].
  apply posting_from_delivers in Hw as (Ho & _ & Hp).
  repeat constructor; [done|]. by exists p.
Qed.

(** X2. Every [postMessage] the listener makes for an event goes to the
    plugin that the origin of the event maps to, on the frame and for the
    origin registered for that plugin: a message from one plugin never
    makes the listener post to another. *)
Theorem listener_posts_to_sender_only pluginAPI event self :
  Forall (to_sender self (MessageEvent.origin event))
    (trace (onMessage pluginAPI event self)).
Proof. apply listened_events; [done|]. apply sent_to_sender. Qed.

Lemma sent_no_call self from value key type args :
  Apply key type args ∉ sent self from value.
Proof.
  unfold sent. destruct (posting_from self from); cbn [posted];
    [|apply not_elem_of_nil..].
  intros [=]%list_elem_of_singleton.
Qed.

(** X3. A member of the plugin API that the listener calls is called for
    a message from an origin that maps to a non-empty title; its first
    argument is that title and the arguments after it are the array at
    [value] in the payload; and it is what the plugin API has at the names
    that [key] and [type] of the payload convert to. The payload cannot
    choose on whose behalf the call is made. *)
Theorem listener_calls_on_behalf pluginAPI event self key type args :
  Apply key type args ∈ trace (onMessage pluginAPI event self) ->
  exists extension d l,
    origins self !! MessageEvent.origin event = Some extension
    /\ extension ≠ ""
    /\ JSON.parse (MessageEvent.data event) = Some d
    /\ get d "value" = Some (Array l)
    /\ args = Str extension :: l
    /\ to_string (default Undefined (get d "key")) = Some key
    /\ to_string (default Undefined (get d "type")) = Some type
    /\ is_Some (lookup_callee pluginAPI key type).
Proof.
  rewrite onMessage_outcome. unfold listened.
  destruct (MessageEvent.type event =? "message")%string;
    [|by intros ?%elem_of_nil].
  destruct (origins self !! MessageEvent.origin event) as [ext|] eqn:Ho;
    [|by intros ?%elem_of_nil].
  destruct (truthy_string ext) eqn:Hext; [|by intros ?%elem_of_nil].
  apply truthy_string_spec in Hext.
  destruct (to_string (MessageEvent.data event)) as [text|] eqn:Htext;
    [|by intros ?%elem_of_nil].
  destruct (JSON.parse_text text) as [d|] eqn:Hparse;
    [|by intros ?%elem_of_nil].
  destruct (get d "value") as [[| | | | |l| | |]|] eqn:Hvalue;
    try by intros ?%elem_of_nil.
  destruct (to_string (default Undefined (get d "key"))) as [k|] eqn:Hk;
    [|by intros ?%elem_of_nil].
  destruct (to_string (default Undefined (get d "type"))) as [t|] eqn:Ht;
    [|by intros ?%elem_of_nil].
  unfold dispatched. cbv zeta.
  destruct (lookup_callee pluginAPI k t) as [c|] eqn:Hc; cbn [trace].
  - intros [[= -> -> ->]|Hin]%elem_of_cons.
    + exists ext, d, l. split; [done|]. split; [done|].
      split; [apply parse_some; eauto|]. by rewrite Hc.
    + apply list_elem_of_In, in_flat_map in Hin as ([error result] & _ & Hin).
      apply list_elem_of_In in Hin.
      by apply (sent_no_call self (MessageEvent.origin event)) in Hin.
  - intros Hin.
    by apply (sent_no_call self (MessageEvent.origin event)) in Hin.
Qed.

Lemma listener_calls_on_behalf_witness :
  exists extension d l,
    origins Session.two !! "https://a" = Some extension
    /\ extension ≠ ""
    /\ JSON.parse (Str (JSON.text Cases.ask_function)) = Some d
    /\ get d "value" = Some (Array l)
    /\ [Str "A"] = Str extension :: l
    /\ to_string (default Undefined (get d "key")) = Some "constructor"
    /\ to_string (default Undefined (get d "type")) = Some "constructor"
    /\ is_Some (lookup_callee Cases.api "constructor" "constructor").
Proof.
  apply (listener_calls_on_behalf Cases.api
           (Session.message "https://a" Cases.ask_function) Session.two
           "constructor" "constructor" [Str "A"]).
  vm_compute. left.
Defined.

(** X4. The request of a registered plugin is answered once for every
    call that its endpoint makes of the callback, in the order of the
    calls: the calls it makes before it returns, and any call it makes
    later, which is answered on the frame that the plugin has then. Each
    response is the text of the object with the request's [key] and
    [type], the [id] as [JSON.parse] read it, and the error and result of
    that call as they were passed: an endpoint that never calls back
    leaves the request unanswered, one that calls twice answers twice. *)
Theorem responses_follow_callbacks pluginAPI self event extension p d id key
    type args f :
  MessageEvent.type event = "message" ->
  origins self !! MessageEvent.origin event = Some extension ->
  extension ≠ "" ->
  plugins self !! extension = Some p ->
  JSON.parse (MessageEvent.data event) = Some d ->
  Envelope.decode d = Some (Envelope.Request id key type args) ->
  lookup_endpoint pluginAPI (Str key) (Str type) = Some f ->
  let answered frame targetOrigin '(error, result) :=
    PostMessage extension frame targetOrigin
      (JSON.stringify
         (Object [("id", id); ("action", Str "response"); ("key", Str key);
                  ("type", Str type); ("error", error);
                  ("value", Array [result])])) in
  onMessage pluginAPI event self
  = Outcome (Normal tt) self
      (Apply key type (Str extension :: args)
       :: (answered (content p) (origin p) <$> f (Str extension :: args)))
  /\ forall error result self' p',
       origins self' !! MessageEvent.origin event = Some extension ->
       plugins self' !! extension = Some p' ->
       callback (MessageEvent.origin event) d error result self'
       = Outcome (Normal tt) self'
           [answered (content p') (origin p') (error, result)].
Proof.
  intros Htype Ho Hext Hp Hparse Hdec Hf. cbv zeta. split.
  - by apply (request_answered pluginAPI self event extension p d id key type
                args f).
  - intros error result self' p' Ho' Hp'.
    by apply (request_answered_later self' event extension p' d id key type
                args).
Qed.

Lemma responses_follow_callbacks_witness :
  onMessage Cases.api (Session.message "https://a" Cases.ask_twice)
    Session.two
  = Outcome (Normal tt) Session.two
      [Apply "app" "twice" [Str "A"; Bool true];
       PostMessage "A" 2 "https://a"
         (Str (JSON.text
            "{'id':3,'action':'response','key':'app','type':'twice','error':null,'value':['first']}"));
       PostMessage "A" 2 "https://a"
         (Str (JSON.text
            "{'id':3,'action':'response','key':'app','type':'twice','error':'changed my mind','value':[null]}"))]
  /\ onMessage Cases.api (Session.message "https://a" Cases.ask_silent)
       Session.two
     = Outcome (Normal tt) Session.two [Apply "app" "silent" [Str "A"]].
Proof.
  split.
  - refine (proj1 (responses_follow_callbacks Cases.api Session.two
      (Session.message "https://a" Cases.ask_twice) "A"
      (Plugin 2 1 "https://a")
      (Object [("id", Number 3 0); ("action", Str "request");
               ("key", Str "app"); ("type", Str "twice");
               ("value", Array [Bool true])])
      (Number 3 0) "app" "twice" [Bool true] Cases.twice _ _ _ _ _ _ _));
      try (vm_compute; reflexivity); discriminate.
  - refine (proj1 (responses_follow_callbacks Cases.api Session.two
      (Session.message "https://a" Cases.ask_silent) "A"
      (Plugin 2 1 "https://a")
      (Object [("id", Number 4 0); ("action", Str "request");
               ("key", Str "app"); ("type", Str "silent");
               ("value", Array [])])
      (Number 4 0) "app" "silent" [] Cases.silent _ _ _ _ _ _ _));
      try (vm_compute; reflexivity); discriminate.
Defined.

(** X5. Of a payload the listener reads the members [value], [key], [type]
    and [id] and nothing else: two events of the same type and origin whose
    payloads parse and agree on these four have the same outcome, whatever
    their [action] and their other members. *)
Theorem listener_reads_four_members pluginAPI self e1 e2 d1 d2 :
  MessageEvent.type e1 = MessageEvent.type e2 ->
  MessageEvent.origin e1 = MessageEvent.origin e2 ->
  JSON.parse (MessageEvent.data e1) = Some d1 ->
  JSON.parse (MessageEvent.data e2) = Some d2 ->
  Forall (λ name, get d1 name = get d2 name) ["value"; "key"; "type"; "id"] ->
  onMessage pluginAPI e1 self = onMessage pluginAPI e2 self.
Proof.
  intros Htype Ho (t1 & Ht1 & H1)%parse_some (t2 & Ht2 & H2)%parse_some Hsame.
  apply Forall_cons in Hsame as [Hv Hsame].
  apply Forall_cons in Hsame as [Hk Hsame].
  apply Forall_cons in Hsame as [Ht Hsame].
  apply Forall_cons in Hsame as [Hi _].
  rewrite !onMessage_outcome. unfold listened.
  rewrite Htype, Ho, Ht1, Ht2, H1, H2, Hv, Hk, Ht.
  unfold dispatched, answer. by rewrite Hk, Ht, Hi.
Qed.

Lemma listener_reads_four_members_witness :
  onMessage Cases.api (Session.message "https://a" Cases.ask_twice)
    Session.two
  = onMessage Cases.api
      (Session.message "https://a" Cases.ask_twice_as_response) Session.two.
Proof.
  eapply listener_reads_four_members; try reflexivity;
    [vm_compute; reflexivity..|].
  repeat constructor.
Defined.

(** ** More of the registry *)

Lemma manager_eta self :
  Manager (plugins self) (origins self) (inFocus self) = self.
Proof. by destruct self. Qed.



(** X7. Unregistering a descriptor whose title and origin are both unknown
    changes nothing and is no error. *)
Theorem unregister_unknown_is_noop desc self :
  plugins self !! title desc = None ->
  origins self !! url desc = None ->
  unregister desc self = Outcome (Normal tt) self [].
Proof.
  intros Hp Ho. rewrite unregister_fields, !delete_id by done.
  by rewrite manager_eta.
Qed.

Lemma unregister_unknown_is_noop_witness :
  unregister Cases.C Session.two = Outcome (Normal tt) Session.two [].
Proof. apply unregister_unknown_is_noop; vm_compute; reflexivity. Defined.

(** X8. Registering the same descriptor twice leaves the fields as the
    second registration alone would: the later frame and modal replace the
    earlier ones, and nothing else of the first call stays. *)
Theorem last_registration_wins desc modal content modal' content' self :
  (register desc modal content ;; register desc modal' content') self
  = register desc modal' content' self.
Proof.
  rewrite (bind_normal _ _ _ _ _ _ (register_fields desc modal content self)).
  rewrite !register_fields. unfold after_events.
  cbn [result self_after trace app plugins origins inFocus].
  by rewrite !insert_insert_eq.
Qed.

(** X9. After [register], the response to a request that came from the
    registered origin is posted on the frame just registered, for that
    origin, whoever held the origin when the request came: a callback that
    runs late answers the plugin registered last. *)
Theorem response_after_register desc modal content key type id error result
    self :
  title desc ≠ "" ->
  response (url desc) key type id error result
    (self_after (register desc modal content self))
  = Outcome (Normal tt) (self_after (register desc modal content self))
      [PostMessage (title desc) content (url desc)
         (JSON.stringify (response_object key type id error result))].
Proof.
  intros Htitle. rewrite register_fields. cbn [self_after].
  apply (response_delivered _ _ _ _ _ _ _ (title desc)
           (Plugin content modal (url desc)));
    [apply lookup_insert_eq|done|apply lookup_insert_eq].
Qed.

Lemma response_after_register_witness :
  response "https://b" (Str "config") (Str "getConfig") (Number 1 0) Null
    (Str "hello") (self_after (register Cases.C_at_b 5 6 Session.two))
  = Outcome (Normal tt) (self_after (register Cases.C_at_b 5 6 Session.two))
      [PostMessage "C" 6 "https://b"
         (JSON.stringify
            (response_object (Str "config") (Str "getConfig") (Number 1 0)
               Null (Str "hello")))].
Proof.
  apply (response_after_register Cases.C_at_b). discriminate.
Defined.

(** X10. After [unregister], the response to a request that came from the
    unregistered origin is posted nowhere and raises no error: a callback
    that runs after its plugin left is dropped. *)
Theorem response_after_unregister desc key type id error result self :
  response (url desc) key type id error result
    (self_after (unregister desc self))
  = Outcome (Normal tt) (self_after (unregister desc self)) [].
Proof.
  rewrite response_outcome, unregister_fields. cbn [self_after].
  unfold sent, posting_from. cbn [origins]. by rewrite lookup_delete_eq.
Qed.

Lemma sent_back self from value :
  Registry.consistent self -> Forall (back_to from) (sent self from value).
Proof.
  intros Hcons. unfold sent.
  destruct (posting_from self from) as [name p| |] eqn:Hw; [|done..].
  apply posting_from_delivers in Hw as (Ho & _ & Hp).
  repeat constructor. cbn.
  apply Hcons in Ho as (p' & Hp' & Horigin). by simplify_eq.
Qed.

(** X11. On fields whose two maps agree, every [postMessage] the listener
    makes for an event has the origin of the event as its target origin: a
    response goes back to the origin the request came from. *)
Theorem consistent_listener_answers_origin pluginAPI event self :
  Registry.consistent self ->
  Forall (back_to (MessageEvent.origin event))
    (trace (onMessage pluginAPI event self)).
Proof.
  intros Hcons. apply listened_events; [done|].
  intros value. by apply sent_back.
Qed.

Lemma two_consistent : Registry.consistent Session.two.
Proof.
  apply (proj2 (fitting_keeps
                  [Registry.Register Session.A 1 2;
                   Registry.Register Session.B 3 4]
                  constructed constructed_consistent) eq_refl 2).
Qed.

Lemma consistent_listener_answers_origin_witness :
  Forall (back_to "https://a")
    (trace (onMessage Cases.api (Session.message "https://a" Cases.ask_twice)
              Session.two)).
Proof.
  apply (consistent_listener_answers_origin Cases.api
           (Session.message "https://a" Cases.ask_twice) Session.two).
  exact two_consistent.
Defined.

(** ** More of the focus handler *)

Lemma unfocus_events_registered self tabName :
  Forall (to_registered self) (unfocus_events self tabName)
  /\ Forall (to_tab_or_focus self tabName) (unfocus_events self tabName).
Proof.
  unfold unfocus_events.
  destruct (inFocus self) as [focused|] eqn:Hf; [|by split].
  destruct (truthy_string focused && negb (focused =? tabName)%string);
    [|by split].
  destruct (plugins self !! focused) as [q|] eqn:Hq; [|by split].
  split; (constructor; [|constructor]); cbn; [by exists q | by right].
Qed.

Lemma data_posts_registered self tabName p calls :
  plugins self !! tabName = Some p ->
  Forall (to_registered self) (data_posts tabName p calls)
  /\ Forall (to_tab_or_focus self tabName) (data_posts tabName p calls).
Proof.
  intros Hp. unfold data_posts.
  split; apply Forall_flat_map, Forall_forall; intros [error data] _;
    (destruct (truthy error); [|constructor]);
    (constructor; [|constructor]); cbn; [by exists p | by left].
Qed.

Lemma tabChanged_events pluginAPI self tabName :
  Forall (to_registered self) (trace (tabChanged pluginAPI tabName self))
  /\ Forall (to_tab_or_focus self tabName)
       (trace (tabChanged pluginAPI tabName self)).
Proof.
  rewrite tabChanged_outcome.
  destruct (unfocus_raises self tabName); [by split|].
  destruct (unfocus_events_registered self tabName) as [Hu1 Hu2].
  destruct (plugins self !! tabName) as [p|] eqn:Hp; [|done].
  destruct (lookup_callee _ _ _) as [c|]; cbn [trace].
  - destruct (data_posts_registered self tabName p (calls_of c [Str tabName])
                Hp) as [Hd1 Hd2].
    split; apply Forall_app; (split; [done|]);
      (constructor; [|by constructor]); cbn; [by exists p | by left].
  - split; apply Forall_app; (split; [done|]);
      (constructor; [|constructor]); cbn; [by exists p | by left].
Qed.


(** X13. A tab change to a name that is no registered plugin tells the
    plugin in focus [unfocus] and leaves [inFocus] naming it, so a second
    such tab change tells it [unfocus] again: between two [focus]
    notifications a plugin can get [unfocus] more than once. *)
Theorem unfocus_repeats pluginAPI self T p tab1 tab2 :
  inFocus self = Some T ->
  T ≠ "" ->
  plugins self !! T = Some p ->
  plugins self !! tab1 = None ->
  plugins self !! tab2 = None ->
  (tabChanged pluginAPI tab1 ;; tabChanged pluginAPI tab2) self
  = Outcome (Normal tt) self
      [PostMessage T (content p) (origin p) unfocus;
       PostMessage T (content p) (origin p) unfocus].
Proof.
  intros Hfocus HT Hp H1 H2.
  assert (forall tab, plugins self !! tab = None ->
            tabChanged pluginAPI tab self
            = Outcome (Normal tt) self
                [PostMessage T (content p) (origin p) unfocus]) as Htab.
  { intros tab Htab. rewrite tabChanged_outcome, Htab.
    unfold unfocus_raises, unfocus_events. rewrite Hfocus, Hp.
    apply truthy_string_spec in HT. rewrite HT.
    destruct (String.eqb_spec T tab) as [->|_]; [congruence|].
    rewrite bool_decide_eq_false_2 by done. done. }
  rewrite (bind_normal _ _ _ _ _ _ (Htab tab1 H1)).
  by rewrite (Htab tab2 H2).
Qed.

Lemma unfocus_repeats_witness :
  let focused :=
    self_after (tabChanged (Session.api Session.compiled) "A" Session.two) in
  (tabChanged (Session.api Session.compiled) "settings" ;;
   tabChanged (Session.api Session.compiled) "run") focused
  = Outcome (Normal tt) focused
      [PostMessage "A" 2 "https://a" unfocus;
       PostMessage "A" 2 "https://a" unfocus].
Proof.
  apply (unfocus_repeats (Session.api Session.compiled) _ "A"
           (Plugin 2 1 "https://a") "settings" "run");
    try (vm_compute; reflexivity).
  discriminate.
Defined.

(** ** More of the broadcast *)



(** ** Histories *)

Import History.

Lemma run_cons pluginAPI s rest self :
  run pluginAPI (s :: rest) self
  = ((run pluginAPI rest (self_after (perform pluginAPI s self))).1,
     (trace (perform pluginAPI s self)
      ++ (run pluginAPI rest (self_after (perform pluginAPI s self))).2)%list).
Proof. cbn [run]. by destruct (run pluginAPI rest _). Qed.

(** A call of the callback, whenever it comes, writes no field and posts
    what [postToOrigin] posts, or nothing. *)
Lemma callback_late from data error result self :
  self_after (callback from data error result self) = self
  /\ (trace (callback from data error result self) = []
      \/ exists value,
           trace (callback from data error result self)
           = sent self from value).
Proof.
  destruct (get data "value") as [v|] eqn:Hv.
  - rewrite callback_outcome by by eexists. split; [done|]. right.
    by eexists.
  - rewrite callback_unreadable by done. split; [done|]. by left.
Qed.

(** The fields a step leaves. *)
Lemma perform_fields pluginAPI s self :
  self_after (perform pluginAPI s self)
  = match s with
    | Register desc modal content =>
        Manager
          (<[title desc := Plugin content modal (url desc)]> (plugins self))
          (<[url desc := title desc]> (origins self)) (inFocus self)
    | Unregister desc =>
        Manager (delete (title desc) (plugins self))
          (delete (url desc) (origins self)) (inFocus self)
    | TabChanged tabName =>
        Manager (plugins self) (origins self)
          (if unfocus_raises self tabName then inFocus self
           else match plugins self !! tabName with
                | Some _ => Some tabName
                | None => inFocus self
                end)
    | Message _ | Broadcast _ | Complete _ _ _ _ => self
    end.
Proof.
  destruct s as [desc modal content|desc|tabName|event|value
                 |from data error result]; cbn [perform].
  - by rewrite register_fields.
  - by rewrite unregister_fields.
  - rewrite tabChanged_outcome.
    repeat case_match; cbn [self_after]; try done; by rewrite manager_eta.
  - apply onMessage_self.
  - by rewrite broadcast_deliveries.
  - apply callback_late.
Qed.

Lemma sent_to_registered self from value :
  Forall (to_registered self) (sent self from value).
Proof.
  unfold sent. destruct (posting_from self from) as [name p| |] eqn:Hw;
    [|done..].
  apply posting_from_delivers in Hw as (_ & _ & Hp).
  constructor; [|constructor]. by exists p.
Qed.

(** Whatever the step, it posts on frames of [plugins] only. *)
Lemma perform_to_registered pluginAPI s self :
  Forall (to_registered self) (trace (perform pluginAPI s self)).
Proof.
  destruct s as [desc modal content|desc|tabName|event|value
                 |from data error result]; cbn [perform].
  - by rewrite register_fields.
  - by rewrite unregister_fields.
  - apply tabChanged_events.
  - apply listened_events; [done|]. intros value. apply sent_to_registered.
  - rewrite broadcast_deliveries. cbn [trace].
    apply Forall_fmap, Forall_forall. intros [name p] Hin.
    apply elem_of_map_to_list in Hin. by exists p.
  - destruct (callback_late from data error result self)
      as [_ [->|[value ->]]]; [done|]. apply sent_to_registered.
Qed.

Lemma run_registered_by pluginAPI all steps self :
  (forall s, s ∈ steps -> s ∈ all) ->
  (forall name p,
     plugins self !! name = Some p ->
     Register (Descriptor name (origin p)) (modal p) (content p) ∈ all) ->
  Forall (registered_by all) (run pluginAPI steps self).2.
Proof.
  revert self. induction steps as [|s rest IH]; intros self Hall Hself;
    [by constructor|].
  rewrite run_cons. cbn [snd]. apply Forall_app. split.
  - eapply Forall_impl; [apply perform_to_registered|].
    intros [name frame targetOrigin message|]; [|done].
    intros (p & Hp & -> & ->). exists (modal p). by apply Hself.
  - apply IH; [intros s' Hs'; apply Hall; by right|].
    intros name p. rewrite perform_fields.
    destruct s as [[t u] modal content|[t u]|tabName|event|value
                   |from data error result];
      cbn [plugins title url]; try apply Hself.
    + destruct (decide (t = name)) as [->|Hne].
      * rewrite lookup_insert_eq. intros [= <-]. cbn. apply Hall. by left.
      * rewrite lookup_insert_ne by done. apply Hself.
    + destruct (decide (t = name)) as [->|Hne].
      * by rewrite lookup_delete_eq.
      * rewrite lookup_delete_ne by done. apply Hself.
Qed.

(** X16. Through any history from the constructed manager, of
    registrations, unregistrations, tab changes, messages and broadcasts in
    any order, every [postMessage] is made on a frame that a [register] of
    the history was given, under the title and for the origin of that same
    call: the manager never posts anywhere else. *)
Theorem posts_on_registered_frames_only pluginAPI steps :
  Forall (registered_by steps) (run pluginAPI steps constructed).2.
Proof.
  apply run_registered_by; [done|].
  intros name p. cbn. by rewrite lookup_empty.
Qed.

Lemma run_keeps pluginAPI (I : manager -> Prop) (allowed : step -> bool)
    steps self :
  (forall s self, allowed s = true -> I self ->
                  I (self_after (perform pluginAPI s self))) ->
  forallb allowed steps = true ->
  I self -> I (run pluginAPI steps self).1.
Proof.
  intros Hstep. revert self.
  induction steps as [|s rest IH]; intros self Hsteps Hself; [done|].
  cbn [forallb] in Hsteps. apply andb_prop in Hsteps as [Hs Hrest].
  rewrite run_cons. cbn [fst]. apply IH; [done|]. by apply Hstep.
Qed.

(** X17. Through any history that holds no [unregister], every origin of
    [origins] maps to a title that [plugins] has: whatever was registered
    over whatever, a response always finds a frame. *)
Theorem origins_stay_resolvable pluginAPI steps self :
  forallb (λ s, negb (is_unregister s)) steps = true ->
  resolvable self ->
  resolvable (run pluginAPI steps self).1.
Proof.
  apply run_keeps. clear. intros s self Hs Hself u t.
  rewrite perform_fields.
  destruct s as [[t' u'] modal content|desc|tabName|event|value
                 |from data error result];
    try done; cbn [plugins origins title url]; try apply Hself.
  destruct (decide (u' = u)) as [->|Hu].
  - rewrite lookup_insert_eq. intros [= ->]. by rewrite lookup_insert_eq.
  - rewrite lookup_insert_ne by done. intros Ho%Hself.
    destruct (decide (t' = t)) as [->|Ht].
    + by rewrite lookup_insert_eq.
    + by rewrite lookup_insert_ne.
Qed.

(** X18. Through any history that holds no [unregister], [inFocus] is
    unset or names a registered plugin: only [unregister] can leave the
    focus on a plugin that is gone. *)
Theorem focus_stays_registered pluginAPI steps self :
  forallb (λ s, negb (is_unregister s)) steps = true ->
  focus_registered self ->
  focus_registered (run pluginAPI steps self).1.
Proof.
  apply run_keeps. clear. intros s self Hs Hself t.
  rewrite perform_fields.
  destruct s as [[t' u'] modal content|desc|tabName|event|value
                 |from data error result];
    try done; cbn [plugins inFocus title url]; try apply Hself.
  - intros Hf%Hself. destruct (decide (t' = t)) as [->|Ht].
    + by rewrite lookup_insert_eq.
    + by rewrite lookup_insert_ne.
  - destruct (unfocus_raises self tabName); [apply Hself|].
    destruct (plugins self !! tabName) as [p|] eqn:Hp; [|apply Hself].
    intros [= <-]. by rewrite Hp.
Qed.

(** X19. Before any [register], nothing is posted, no endpoint is called
    and the fields stay as constructed, whatever tabs change, messages
    arrive, broadcasts are made or descriptors are unregistered. *)
Theorem nothing_before_registration pluginAPI steps :
  forallb (λ s, negb (is_register s)) steps = true ->
  run pluginAPI steps constructed = (constructed, []).
Proof.
  induction steps as [|s rest IH]; intros Hsteps; [done|].
  cbn [forallb] in Hsteps. apply andb_prop in Hsteps as [Hs Hrest].
  rewrite run_cons.
  assert (self_after (perform pluginAPI s constructed) = constructed
          /\ trace (perform pluginAPI s constructed) = []) as [-> ->].
  { destruct s as [desc modal content|desc|tabName|event|value
                   |from data error result]; cbn [perform].
    - discriminate Hs.
    - rewrite unregister_fields. unfold constructed.
      cbn [plugins origins inFocus self_after trace].
      by rewrite !delete_empty.
    - rewrite tabChanged_outcome. cbn. by rewrite lookup_empty.
    - rewrite onMessage_outcome. unfold listened. cbn.
      rewrite lookup_empty.
      by destruct (MessageEvent.type event =? "message")%string.
    - rewrite broadcast_deliveries. cbn. by rewrite map_to_list_empty.
    - destruct (callback_late from data error result constructed)
        as [-> [->|[value ->]]]; [done|].
      unfold sent, posting_from. cbn. by rewrite lookup_empty. }
  by rewrite IH.
Qed.

Lemma constructed_resolvable : resolvable constructed.
Proof. intros u t. cbn. by rewrite lookup_empty. Qed.

Lemma constructed_focus_registered : focus_registered constructed.
Proof. by intros t. Qed.

Lemma origins_stay_resolvable_witness :
  resolvable (run Cases.api Cases.growing constructed).1.
Proof.
  apply origins_stay_resolvable;
    [vm_compute; reflexivity | exact constructed_resolvable].
Defined.

Lemma focus_stays_registered_witness :
  focus_registered (run Cases.api Cases.growing constructed).1.
Proof.
  apply focus_stays_registered;
    [vm_compute; reflexivity | exact constructed_focus_registered].
Defined.

Lemma nothing_before_registration_witness :
  run Cases.api Cases.idle constructed = (constructed, []).
Proof. apply nothing_before_registration. vm_compute. reflexivity. Defined.

(** ** Registration and the listener together *)

(** X20. After [register] of a descriptor with a non-empty title, every
    message from the registered origin, whatever its payload, is handled
    for the registered title: an endpoint it calls gets that title as its
    first argument, and what it posts goes to that title on the frame just
    registered, for the registered origin. *)
Theorem registered_origin_handled desc modal content pluginAPI data self :
  title desc ≠ "" ->
  Forall (handled_for (title desc) content (url desc))
    (trace (onMessage pluginAPI (MessageEvent.Make "message" (url desc) data)
              (self_after (register desc modal content self)))).
Proof.
  intros Htitle. rewrite register_fields. cbn [self_after].
  apply listened_events; cbn [MessageEvent.origin origins].
  - intros extension k t l. rewrite lookup_insert_eq. intros [= <-] _.
    by eexists.
  - intros value. unfold sent, posting_from, posting_to. cbn [origins plugins].
    rewrite !lookup_insert_eq.
    apply truthy_string_spec in Htitle. rewrite Htitle.
    by repeat constructor.
Qed.

Lemma registered_origin_handled_witness :
  Forall (handled_for "C" 6 "https://b")
    (trace (onMessage Cases.api
              (MessageEvent.Make "message" "https://b"
                 (Str (JSON.text Cases.ask_twice)))
              (self_after (register Cases.C_at_b 5 6 Session.two)))).
Proof. apply (registered_origin_handled Cases.C_at_b). discriminate. Defined.

(** X21. After [unregister], a message from the unregistered origin is
    ignored whatever its payload: the listener returns, posts nothing,
    calls no endpoint and does not throw, even on a payload that is no
    JSON text. *)
Theorem unregistered_origin_ignored desc pluginAPI type data self :
  onMessage pluginAPI (MessageEvent.Make type (url desc) data)
    (self_after (unregister desc self))
  = Outcome (Normal tt) (self_after (unregister desc self)) [].
Proof.
  rewrite unregister_fields. cbn [self_after]. rewrite onMessage_outcome.
  unfold listened.
  cbn [MessageEvent.type MessageEvent.origin origins].
  rewrite lookup_delete_eq. by destruct (type =? "message")%string.
Qed.
